(** * UrzasResearchDesk: the helper algorithms of [Helpers.py]

    A shallow embedding of the two algorithms of [Helpers.py] and the
    properties their specification states about them:

    - [sparse_column_value_counts]: per-column value counts of a sparse
      matrix in compressed-column form, with the implicit zeros added;
    - [fuzzy_join]: an inner join of two tables on the [Player] column in
      which rows with a repeated name are paired greedily by rank distance.

    and of the parts of the analyzer of [FoF_Claude.py] that compute on the
    same data: the list of card options, the presence view and the win rate
    analysis, over the dense columns of the sparse matrix.

    Python exceptions are modelled by the [result] monad; a [dict] is a
    [gmap]; a pandas row is a finite map from column labels to cells, an
    absent label standing for a NaN cell. *)

From Stdlib Require Import ZArith QArith Lia Ascii.
From stdpp Require Import gmap strings list fin_maps sorting.

Local Open Scope Z_scope.

(** ** Exceptions *)

Inductive exn : Set :=
  | KeyError
  | AttributeError
  | TypeError
  | IndexError
  | ValueError
  | ZeroDivisionError.

Global Instance exn_eq_dec : EqDecision exn.
Proof. solve_decision. Defined.

Inductive result (A : Type) : Type :=
  | Ok (a : A)
  | Raise (e : exn).
Global Arguments Ok {A} a.
Global Arguments Raise {A} e.

Global Instance result_ret : MRet result := λ A a, Ok a.
Global Instance result_bind : MBind result := λ A B f m,
  match m with
  | Ok a => f a
  | Raise e => Raise e
  end.
Global Instance result_fmap : FMap result := λ A B f m,
  match m with
  | Ok a => Ok (f a)
  | Raise e => Raise e
  end.

(** [xs[i]] on a sequence: [IndexError] out of range. *)
Definition getitem {A} (xs : list A) (i : nat) : result A :=
  match xs !! i with
  | Some x => Ok x
  | None => Raise IndexError
  end.

(** [xs[start:end]] for non-negative bounds: clipped, never an error. *)
Definition slice {A} (xs : list A) (start end_ : nat) : list A :=
  take (end_ - start) (drop start xs).

(** A dict comprehension [{k: f(v) for k, v in d.items()}]: [f] runs once
    per item, and the first exception aborts the comprehension. *)
Definition dict_comp `{Countable K} {V W} (f : V → result W) (d : gmap K V)
    : result (gmap K W) :=
  list_to_map <$> mapM (λ kv, w ← f kv.2; mret (kv.1, w)) (map_to_list d).

(** ** The sparse column profiler *)

Module SparseProfile.

(** A matrix in compressed sparse column form, as [scipy.sparse] stores it
    and as the profiler has it after its conversion step ([tocsc]). The
    profiler never reads the row indices, so they are left out. *)
Record csc_matrix : Type := {
  shape : nat * nat;
  indptr : list nat;
  data : list Z
}.

(** One entry of the returned list: counts ([normalize=False]) or
    frequencies ([normalize=True]). Frequencies are exact rationals here,
    where Python computes them in floating point. *)
Inductive profile : Type :=
  | Counts (c : gmap Z Z)
  | Freqs (f : gmap Z Q).

(** The counting loop of [Counter], started from a dict [c]. *)
Definition count_into (c : gmap Z Z) (xs : list Z) : gmap Z Z :=
  foldl (λ c x, <[x := default 0 (c !! x) + 1]> c) c xs.

(** [collections.Counter(xs)] *)
Definition Counter (xs : list Z) : gmap Z Z := count_into ∅ xs.

(** [v / total] on Python integers *)
Definition truediv (total v : Z) : result Q :=
  if decide (total = 0) then Raise ZeroDivisionError
  else Ok (inject_Z v / inject_Z total)%Q.

(** The explicitly stored values of column [col_idx]. *)
Definition column_data (M : csc_matrix) (col_idx : nat) : result (list Z) :=
  start ← getitem (indptr M) col_idx;
  end_ ← getitem (indptr M) (col_idx + 1);
  mret (slice (data M) start end_).

(** The body of the column loop up to the normalization step. *)
Definition column_counter (M : csc_matrix) (col_idx : nat) : result (gmap Z Z) :=
  let n_rows := (shape M).1 in
  start ← getitem (indptr M) col_idx;
  end_ ← getitem (indptr M) (col_idx + 1);
  let data := slice (data M) start end_ in
  let counter := Counter data in
  let explicit_entries := Z.of_nat end_ - Z.of_nat start in
  let zeros_count := Z.of_nat n_rows - explicit_entries in
  let counter :=
    if decide (0 < zeros_count) then <[0 := zeros_count]> counter else counter in
  mret counter.

Definition column_profile (M : csc_matrix) (normalize : bool) (col_idx : nat)
    : result profile :=
  counter ← column_counter M col_idx;
  if normalize then
    let total := Z.of_nat (shape M).1 in
    Freqs <$> dict_comp (truediv total) counter
  else mret (Counts counter).

Definition sparse_column_value_counts (M : csc_matrix) (normalize : bool)
    : result (list profile) :=
  let n_cols := (shape M).2 in
  mapM (column_profile M normalize) (seq 0 n_cols).

(** [sum(d.values())] *)
Definition sum_counts (d : gmap Z Z) : Z :=
  map_fold (λ _ v acc, v + acc) 0 d.

Definition sum_freqs (d : gmap Z Q) : Q :=
  map_fold (λ _ v acc, (v + acc)%Q) 0%Q d.

(** How often [v] occurs among the stored values [xs]. *)
Definition occurrences (v : Z) (xs : list Z) : Z :=
  Z.of_nat (length (filter (λ x, x = v) xs)).

(** The number of explicitly stored zeros among [xs]. *)
Definition explicit_zeros (xs : list Z) : Z := occurrences 0 xs.

(** The matrices [scipy] builds: one pointer per column plus one, pointers
    ascending and within [data], at most one entry per row in a column. *)
Definition canonical (M : csc_matrix) : Prop :=
  length (indptr M) = S (shape M).2 ∧
  ∀ j s e, indptr M !! j = Some s → indptr M !! S j = Some e →
    (s ≤ e ≤ length (data M))%nat ∧ (e - s ≤ (shape M).1)%nat.

(** A 2x1 matrix whose only stored entry is a zero. *)
Definition stored_zero_matrix : csc_matrix :=
  {| shape := (2%nat, 1%nat); indptr := [0%nat; 1%nat]; data := [0] |}.

(** A 0x1 and a 0x2 matrix. *)
Definition no_rows_matrix : csc_matrix :=
  {| shape := (0%nat, 1%nat); indptr := [0%nat; 0%nat]; data := [] |}.

Definition no_rows_matrix2 : csc_matrix :=
  {| shape := (0%nat, 2%nat); indptr := [0%nat; 0%nat; 0%nat]; data := [] |}.

(** A 3x2 matrix: column 0 stores a 4, column 1 stores two 1s. *)
Definition small_matrix : csc_matrix :=
  {| shape := (3%nat, 2%nat); indptr := [0%nat; 1%nat; 3%nat];
     data := [4; 1; 1] |}.

End SparseProfile.

(** ** The fuzzy join *)

Module FuzzyJoin.

(** A non-missing cell: a string or an integer. *)
Inductive value : Set :=
  | VStr (s : string)
  | VInt (z : Z).

Global Instance value_eq_dec : EqDecision value.
Proof. solve_decision. Defined.

(** A row maps column labels to cells; a label without a binding is a NaN
    (missing) cell. *)
Abbreviation row := (gmap string value).

Record DataFrame : Type := {
  columns : list string;
  rows : list row
}.

(** A row given cell by cell, NaN cells included. *)
Definition row_of_cells (cells : list (string * option value)) : row :=
  list_to_map (omap (λ c, pair c.1 <$> c.2) cells).

(** [df[label]] *)
Definition column (df : DataFrame) (label : string)
    : result (list (option value)) :=
  if decide (label ∈ columns df) then Ok ((λ r, r !! label) <$> rows df)
  else Raise KeyError.

(** [row.label] on a tuple of [df.itertuples()] *)
Definition getattr (df : DataFrame) (r : row) (label : string)
    : result (option value) :=
  if decide (label ∈ columns df) then Ok (r !! label)
  else Raise AttributeError.

(** [row[label]] on a row [df.iloc[i]] *)
Definition row_getitem (df : DataFrame) (r : row) (label : string)
    : result (option value) :=
  if decide (label ∈ columns df) then Ok (r !! label)
  else Raise KeyError.

(** The suffix [''] that [fuzzy_join] gives the left labels. *)
Abbreviation no_suffix := EmptyString.

(** *** [pd.merge(df1, df2, on=on, how='inner', suffixes=(lsuffix, rsuffix))]

    Labels are taken to be distinct within a frame and after suffixing;
    key cells match by equality, two NaN keys included, and the result keeps
    the order of the left rows. When a suffixed label collides with another
    label pandas raises [MergeError] instead, and it raises [ValueError]
    for a key column of strings against a numeric one. The definitions
    below do not have these two cases; [distinct_labels] and
    [string_names] state that they do not arise. *)
Definition left_label (on lsuffix : string) (df2 : DataFrame) (c : string)
    : string :=
  if decide (c ≠ on ∧ c ∈ columns df2) then c +:+ lsuffix else c.

Definition right_label (rsuffix : string) (df1 : DataFrame) (c : string)
    : string :=
  if decide (c ∈ columns df1) then c +:+ rsuffix else c.

Definition merge_columns (on lsuffix rsuffix : string) (df1 df2 : DataFrame)
    : list string :=
  (left_label on lsuffix df2 <$> columns df1) ++
  (right_label rsuffix df1 <$> filter (λ c, c ≠ on) (columns df2)).

Definition merge_row (on lsuffix rsuffix : string) (df1 df2 : DataFrame)
    (r1 r2 : row) : row :=
  row_of_cells
    (((λ c, (left_label on lsuffix df2 c, r1 !! c)) <$> columns df1) ++
     ((λ c, (right_label rsuffix df1 c, r2 !! c)) <$>
        filter (λ c, c ≠ on) (columns df2))).

Definition merge_rows (on lsuffix rsuffix : string) (df1 df2 : DataFrame)
    : list row :=
  rows df1 ≫= λ r1,
    merge_row on lsuffix rsuffix df1 df2 r1 <$>
      filter (λ r2, r1 !! on = r2 !! on) (rows df2).

Definition pd_merge (df1 df2 : DataFrame) (on lsuffix rsuffix : string)
    : result DataFrame :=
  if decide (on ∈ columns df1 ∧ on ∈ columns df2) then
    Ok {| columns := merge_columns on lsuffix rsuffix df1 df2;
          rows := merge_rows on lsuffix rsuffix df1 df2 |}
  else Raise KeyError.

(** [s.value_counts()]: NaN cells are not counted. pandas lists the values
    by descending count; the join only feeds them to a [set]. *)
Definition value_counts (s : list (option value)) : list (value * nat) :=
  let vals := omap id s in
  (λ v, (v, length (filter (λ w, w = v) vals))) <$> remove_dups vals.

(** [s.value_counts()[s.value_counts() > 1].index.tolist()] *)
Definition duplicated (s : list (option value)) : list value :=
  (filter (λ p, (1 < p.2)%nat) (value_counts s)).*1.

(** [pd.concat(frames, ignore_index=True)]: the labels in order of first
    appearance, the rows one frame after the other. *)
Definition pd_concat (frames : list DataFrame) : result DataFrame :=
  match frames with
  | [] => Raise ValueError
  | _ => Ok {| columns :=
                 foldl (λ acc df, acc ++ list_difference (columns df) acc)
                       [] frames;
               rows := frames ≫= rows |}
  end.

(** *** The distance matrix and the greedy matching *)

(** An entry of the float matrix [distances]. *)
Inductive distance : Set :=
  | Fin (d : Z)
  | Inf
  | NaN.

Global Instance distance_eq_dec : EqDecision distance.
Proof. solve_decision. Defined.

(** [abs(x - y)] on two rank cells. The code stores the distance in a
    [float64] matrix, which holds an integer exactly up to 2^53; the
    distance is kept exact here, and a theorem that compares distances
    bounds the ranks ([exact_ranks]). *)
Definition rank_distance (x y : option value) : result distance :=
  match x, y with
  | Some (VStr _), _ | _, Some (VStr _) => Raise TypeError
  | Some (VInt a), Some (VInt b) => Ok (Fin (Z.abs (a - b)))
  | _, _ => Ok NaN
  end.

Definition distance_matrix (df1 df2 : DataFrame) (dup_df1 dup_df2 : list row)
    : result (list (list distance)) :=
  mapM (λ row1,
    mapM (λ row2,
      rank1 ← getattr df1 row1 "Rank";
      rank2 ← getattr df2 row2 "Rank";
      rank_distance rank1 rank2) dup_df2) dup_df1.

(** [x] replaces the running minimum [best] in numpy's scan: a NaN beats
    everything before it and is never beaten, otherwise strictly smaller
    wins. *)
Definition beats (x best : distance) : bool :=
  match x, best with
  | _, NaN => false
  | NaN, _ => true
  | Fin a, Fin b => bool_decide (a < b)
  | Fin _, Inf => true
  | Inf, _ => false
  end.

Fixpoint argmin_from (best_i : nat) (best : distance) (i : nat)
    (xs : list distance) : nat :=
  match xs with
  | [] => best_i
  | x :: xs =>
      if beats x best then argmin_from i x (S i) xs
      else argmin_from best_i best (S i) xs
  end.

(** [a.argmin()] on the flattened matrix: the first index of the minimum. *)
Definition argmin (xs : list distance) : result nat :=
  match xs with
  | [] => Raise ValueError
  | x :: xs => Ok (argmin_from 0 x 1 xs)
  end.

(** [np.unravel_index(idx, shape)] for a two-dimensional shape. *)
Definition unravel_index (idx : nat) (shape : nat * nat) : result (nat * nat) :=
  if decide (idx < shape.1 * shape.2)%nat
  then Ok ((idx / shape.2)%nat, (idx mod shape.2)%nat)
  else Raise ValueError.

(** [distances[i, :] = np.inf; distances[:, j] = np.inf] *)
Definition mask (i j : nat) (distances : list (list distance))
    : list (list distance) :=
  (λ r, <[j := Inf]> r) <$> alter (λ r, (λ _, Inf) <$> r) i distances.

(** The [while] loop, by the number [k] of pairs still to find:
    [k = min(len(dup_df1), len(dup_df2)) - len(matched_pairs)]. *)
Fixpoint greedy (k : nat) (shape : nat * nat) (distances : list (list distance))
    : result (list (nat * nat)) :=
  match k with
  | O => Ok []
  | S k =>
      idx ← argmin (concat distances);
      min_idx ← unravel_index idx shape;
      rest ← greedy k shape (mask min_idx.1 min_idx.2 distances);
      mret (min_idx :: rest)
  end.

Definition joined_row (df1 df2 : DataFrame) (row_df1 row_df2 : row)
    : result DataFrame :=
  name ← row_getitem df1 row_df1 "Player";
  rank_df1 ← row_getitem df1 row_df1 "Rank";
  rank_df2 ← row_getitem df2 row_df2 "Rank";
  mret {| columns := ["name"; "rank_df1"; "rank_df2"];
          rows := [row_of_cells [("name", name); ("rank_df1", rank_df1);
                                 ("rank_df2", rank_df2)]] |}.

(** [df[df['Player'] == dup_name]] *)
Definition rows_named (df : DataFrame) (dup_name : value) : list row :=
  filter (λ r, r !! "Player" = Some dup_name) (rows df).

Definition matched_pairs (df1 df2 : DataFrame) (dup_name : value)
    : result (list (nat * nat)) :=
  let dup_df1 := rows_named df1 dup_name in
  let dup_df2 := rows_named df2 dup_name in
  distances ← distance_matrix df1 df2 dup_df1 dup_df2;
  greedy (length dup_df1 `min` length dup_df2)
         (length dup_df1, length dup_df2) distances.

(** One turn of the loop over [duplicate_names]: the frames appended to
    [fuzzy_results] for [dup_name]. *)
Definition fuzzy_match (df1 df2 : DataFrame) (dup_name : value)
    : result (list DataFrame) :=
  let dup_df1 := rows_named df1 dup_name in
  let dup_df2 := rows_named df2 dup_name in
  if decide (0 < length dup_df1 ∧ 0 < length dup_df2)%nat then
    pairs ← matched_pairs df1 df2 dup_name;
    mapM (λ p,
      row_df1 ← getitem dup_df1 p.1;
      row_df2 ← getitem dup_df2 p.2;
      joined_row df1 df2 row_df1 row_df2) pairs
  else Ok [].

(** [list(set(duplicate_names_df1 + duplicate_names_df2))] for a given
    iteration order [set_iter] of Python sets. *)
Definition duplicate_names (set_iter : list value → list value)
    (df1 df2 : DataFrame) : result (list value) :=
  players1 ← column df1 "Player";
  players2 ← column df2 "Player";
  mret (set_iter (duplicated players1 ++ duplicated players2)).

(** [standard_join[~standard_join['Player'].isin(duplicate_names)]] *)
Definition clean_join (standard_join : DataFrame) (names : list value)
    : result DataFrame :=
  _ ← column standard_join "Player";
  mret {| columns := columns standard_join;
          rows := filter (λ r, r !! "Player" ∉ (Some <$> names))
                         (rows standard_join) |}.

Definition fuzzy_results (df1 df2 : DataFrame) (names : list value)
    : result (list DataFrame) :=
  frames ← mapM (fuzzy_match df1 df2) names;
  mret (concat frames).

Definition fuzzy_join (set_iter : list value → list value)
    (df1 df2 : DataFrame) : result DataFrame :=
  standard_join ← pd_merge df1 df2 "Player" no_suffix "_standings";
  names ← duplicate_names set_iter df1 df2;
  clean ← clean_join standard_join names;
  fuzzy ← fuzzy_results df1 df2 names;
  if decide (fuzzy ≠ []) then
    fuzzy_frame ← pd_concat fuzzy;
    pd_concat [clean; fuzzy_frame]
  else mret clean.

(** Python iterates a set in an order of its own: any listing of the
    distinct elements can occur. *)
Definition set_listing (set_iter : list value → list value) : Prop :=
  ∀ l, set_iter l ≡ₚ remove_dups l.

(** Two such listings: in the order of [remove_dups], and reversed. *)
Definition reverse_dups (l : list value) : list value :=
  reverse (remove_dups l).

(** *** Notions used in the statements *)

(** A cell that holds a number or is missing. *)
Definition numeric (cell : option value) : Prop :=
  match cell with
  | Some (VStr _) => False
  | _ => True
  end.

Global Instance numeric_dec (cell : option value) : Decision (numeric cell).
Proof. destruct cell as [[s|z]|]; cbn; apply _. Defined.

(** A table of player records: it has the [Player] and [Rank] columns and
    its rank cells are numeric. *)
Definition ranked (df : DataFrame) : Prop :=
  "Player" ∈ columns df ∧ "Rank" ∈ columns df ∧
  Forall (λ r, numeric (r !! "Rank")) (rows df).

(** The labels of the standard join are distinct. *)
Definition distinct_labels (df1 df2 : DataFrame) : Prop :=
  NoDup (merge_columns "Player" no_suffix "_standings" df1 df2).

(** A name cell that is a string. *)
Definition is_name (cell : option value) : Prop :=
  match cell with
  | Some (VStr _) => True
  | _ => False
  end.

Global Instance is_name_dec (cell : option value) : Decision (is_name cell).
Proof. destruct cell as [[s|z]|]; cbn; apply _. Defined.

(** Every name of the table is a string: the key columns of the standard
    join then have the one type. *)
Definition string_names (df : DataFrame) : Prop :=
  Forall (λ r : row, is_name (r !! "Player")) (rows df).

(** The exception a failing fuzzy phase ends with. *)
Definition rank_error (df1 df2 : DataFrame) : exn :=
  if decide ("Rank" ∈ columns df1 ∧ "Rank" ∈ columns df2) then TypeError
  else AttributeError.

(** [distances] has [shape.1] rows of [shape.2] entries each. *)
Definition has_shape (distances : list (list distance)) (shape : nat * nat)
    : Prop :=
  length distances = shape.1 ∧ Forall (λ r, length r = shape.2) distances.

(** [frame] is a fuzzy record for [name]: a frame with the three labels
    [name], [rank_df1], [rank_df2] and a single row, whose ranks come from a
    row of [df1] and a row of [df2] with that name. *)
Definition joined_from (df1 df2 : DataFrame) (name : value) (frame : DataFrame)
    : Prop :=
  columns frame = ["name"; "rank_df1"; "rank_df2"] ∧
  ∃ r1 r2, r1 ∈ rows_named df1 name ∧ r2 ∈ rows_named df2 name ∧
    rows frame = [row_of_cells [("name", Some name);
                                ("rank_df1", r1 !! "Rank");
                                ("rank_df2", r2 !! "Rank")]].

(** The names the fuzzy phase loops over, for tables with a [Player]
    column. *)
Definition ambiguous_names (set_iter : list value → list value)
    (df1 df2 : DataFrame) : list value :=
  set_iter (duplicated ((λ r, r !! "Player") <$> rows df1) ++
            duplicated ((λ r, r !! "Player") <$> rows df2)).

(** The rows the exact phase keeps: the standard join without the rows of
    the [names]. *)
Definition exact_rows (df1 df2 : DataFrame) (names : list value) : list row :=
  filter (λ r, r !! "Player" ∉ (Some <$> names))
         (merge_rows "Player" no_suffix "_standings" df1 df2).

(** The frame [fuzzy_join] returns, given the frames of the fuzzy phase. *)
Definition combined (df1 df2 : DataFrame) (names : list value)
    (fuzzy : list DataFrame) : DataFrame :=
  let labels := merge_columns "Player" no_suffix "_standings" df1 df2 in
  {| columns :=
       if decide (fuzzy ≠ [])
       then labels ++ list_difference ["name"; "rank_df1"; "rank_df2"] labels
       else labels;
     rows := exact_rows df1 df2 names ++ (fuzzy ≫= rows) |}.

(** The frames of one name, none when its turn of the loop raises. *)
Definition frames_of (df1 df2 : DataFrame) (x : value) : list DataFrame :=
  match fuzzy_match df1 df2 x with
  | Ok fs => fs
  | Raise _ => []
  end.

(** The plain inner join on the name key, after the specification: one
    record for every pair of a row of [df1] and a row of [df2] with the same
    name, with all columns of both. *)
Definition inner_join (df1 df2 : DataFrame) : result DataFrame :=
  if decide ("Player" ∈ columns df1 ∧ "Player" ∈ columns df2) then
    Ok {| columns := merge_columns "Player" no_suffix "_standings" df1 df2;
          rows := (λ p, merge_row "Player" no_suffix "_standings" df1 df2 p.1 p.2) <$>
                    filter (λ p, p.1 !! "Player" = p.2 !! "Player")
                           (list_prod (rows df1) (rows df2)) |}
  else Raise KeyError.

(** *** Example tables *)

Definition player (name : string) (rank : Z) : row :=
  {[ "Player" := VStr name; "Rank" := VInt rank ]}.

(** [A = [{Al, 1}, {Al, 5}]] and [B = [{Al, 2}]] *)
Definition tableA : DataFrame :=
  {| columns := ["Player"; "Rank"]; rows := [player "Al" 1; player "Al" 5] |}.

Definition tableB : DataFrame :=
  {| columns := ["Player"; "Rank"]; rows := [player "Al" 2] |}.

(** Two tables with further columns, [Bo] twice in the first and three times
    in the second. *)
Definition results : DataFrame :=
  {| columns := ["Player"; "Rank"; "Wins"];
     rows := [<["Wins" := VInt 3]> (player "Al" 1); player "Bo" 5;
              player "Bo" 6; player "Cy" 9] |}.

Definition standings : DataFrame :=
  {| columns := ["Player"; "Rank"; "Points"];
     rows := [<["Points" := VInt 30]> (player "Al" 2); player "Bo" 6;
              player "Bo" 5; player "Bo" 1] |}.

(** Tables without a [Rank] column. *)
Definition names_only (names : list string) : DataFrame :=
  {| columns := ["Player"];
     rows := (λ n, {[ "Player" := VStr n ]}) <$> names |}.

End FuzzyJoin.

(** ** The dense view of a sparse matrix *)

Module SparseDense.
Import SparseProfile.

(** A CSC matrix together with its row indices: [indices[k]] is the row of
    the stored entry [data[k]]. *)
Record sparse_matrix : Type := {
  csc : csc_matrix;
  indices : list nat
}.

(** The stored entries of column [j], each with its row. *)
Definition column_entries (X : sparse_matrix) (j : nat)
    : result (list (nat * Z)) :=
  start ← getitem (indptr (csc X)) j;
  end_ ← getitem (indptr (csc X)) (j + 1);
  mret (zip (slice (indices X) start end_) (slice (data (csc X)) start end_)).

(** Densification: every cell starts at zero and each stored entry is added
    to the cell of its row. *)
Definition scatter (n_rows : nat) (entries : list (nat * Z)) : list Z :=
  foldl (λ col e, alter (Z.add e.2) e.1 col) (replicate n_rows 0) entries.

(** [X[:, j].toarray()], flattened *)
Definition dense_column (X : sparse_matrix) (j : nat) : result (list Z) :=
  entries ← column_entries X j;
  mret (scatter (shape (csc X)).1 entries).

(** The row indices of every column are within the rows and distinct. *)
Definition indexed (X : sparse_matrix) : Prop :=
  length (indices X) = length (data (csc X)) ∧
  ∀ j entries, column_entries X j = Ok entries →
    NoDup entries.*1 ∧ Forall (λ i, i < (shape (csc X)).1)%nat entries.*1.

(** What [normalize=True] makes of a profile of counts: every count divided
    by [total]. *)
Definition frequencies (total : Z) (p : profile) : profile :=
  match p with
  | Counts c => Freqs ((λ v, inject_Z v / inject_Z total)%Q <$> c)
  | Freqs f => Freqs f
  end.

(** A 3x2 matrix: [4] at (1, 0); [1] at (0, 1) and (2, 1). *)
Definition small_sparse : sparse_matrix :=
  {| csc := small_matrix; indices := [1%nat; 0%nat; 2%nat] |}.

End SparseDense.


(** ** The greedy matching, entry by entry *)

Module Matching.
Import FuzzyJoin.

(** [distances[i, j]] *)
Definition entry (distances : list (list distance)) (i j : nat)
    : option distance :=
  distances !! i ≫= λ r, r !! j.

(** [distances] is [original] with the rows [used_rows] and the columns
    [used_cols] set to infinity. *)
Definition masked (shape : nat * nat) (original distances : list (list distance))
    (used_rows used_cols : list nat) : Prop :=
  has_shape distances shape ∧
  ∀ i j, (i < shape.1)%nat → (j < shape.2)%nat →
    entry distances i j =
    if decide (i ∈ used_rows ∨ j ∈ used_cols) then Some Inf
    else entry original i j.

(** No entry of the matrix is infinite. *)
Definition finite_or_nan (distances : list (list distance)) : Prop :=
  ∀ i j, entry distances i j ≠ Some Inf.

(** [name] has rows in both tables. *)
Definition in_both (df1 df2 : DataFrame) (name : value) : Prop :=
  (0 < length (rows_named df1 name) ∧ 0 < length (rows_named df2 name))%nat.

Global Instance in_both_dec (df1 df2 : DataFrame) (name : value) :
  Decision (in_both df1 df2 name).
Proof. unfold in_both. apply _. Defined.

(** The rank cells of the rows of [name] are numeric. *)
Definition numeric_group (df : DataFrame) (name : value) : Prop :=
  Forall (λ r : row, numeric (r !! "Rank")) (rows_named df name).

(** A rank cell the [float64] distance matrix of the code is exact on: an
    integer rank is at most 2^52 in absolute value, so that the distance of
    two such ranks is an integer up to 2^53. *)
Definition exact_rank (cell : option value) : Prop :=
  match cell with
  | Some (VInt z) => Z.abs z ≤ 2 ^ 52
  | _ => True
  end.

Global Instance exact_rank_dec (cell : option value) :
  Decision (exact_rank cell).
Proof. destruct cell as [[s|z]|]; cbn; apply _. Defined.

(** The rank cells of the rows of [name] are exact in that sense. *)
Definition exact_ranks (df : DataFrame) (name : value) : Prop :=
  Forall (λ r : row, exact_rank (r !! "Rank")) (rows_named df name).

(** Two tables in which the second [Bo] of the first has a string rank. *)
Definition seeded : DataFrame :=
  {| columns := ["Player"; "Rank"];
     rows := [player "Bo" 1;
              {[ "Player" := VStr "Bo"; "Rank" := VStr "2nd" ]};
              {[ "Player" := VStr "Cy"; "Rank" := VStr "3rd" ]}] |}.

End Matching.


(** ** The analyzer of [FoF_Claude.py] *)

Module Analyzer.
Import SparseProfile SparseDense FuzzyJoin.

(** *** [_initialize_card_list] *)

(** [s.replace(old, new)] for a non-empty [old]: the occurrences of [old]
    are replaced from left to right, without overlap. [skip] counts the
    characters of the occurrence being replaced that are still to pass. *)
Fixpoint replace_from (old new : string) (skip : nat) (s : string) : string :=
  match s with
  | EmptyString => EmptyString
  | String a s' =>
      match skip with
      | S k => replace_from old new k s'
      | O =>
          if String.prefix old s
          then new +:+ replace_from old new (String.length old - 1) s'
          else String a (replace_from old new 0 s')
      end
  end.

Definition str_replace (old new s : string) : string :=
  replace_from old new 0 s.

(** [feature_names.keys()] *)
Definition dict_keys (feature_names : gmap string nat) : list string :=
  (map_to_list feature_names).*1.

(** An iteration order of Python sets of strings. *)
Definition string_set_listing (set_iter : list string → list string) : Prop :=
  ∀ l, set_iter l ≡ₚ remove_dups l.

(** [sorted(list(set([name.replace('_SB', '') for name in
    feature_names.keys()])))]; strings compare byte by byte, as Python
    compares them by code point. *)
Definition card_options (set_iter : list string → list string)
    (feature_names : gmap string nat) : list string :=
  merge_sort String.le
    (set_iter ((λ name, str_replace "_SB" EmptyString name) <$>
               dict_keys feature_names)).

(** [c] does not occur in [s]. *)
Fixpoint free_of (c : Ascii.ascii) (s : string) : Prop :=
  match s with
  | EmptyString => True
  | String a s' => a ≠ c ∧ free_of c s'
  end.

(** *** [_get_card_presence_view] *)

(** [feature_names[key]] *)
Definition dict_getitem (feature_names : gmap string nat) (key : string)
    : result nat :=
  match feature_names !! key with
  | Some i => Ok i
  | None => Raise KeyError
  end.

(** [(X[:, j].sum(axis=1) > 0).A1] *)
Definition column_positive (X : sparse_matrix) (j : nat) : result (list bool) :=
  cells ← dense_column X j;
  mret ((λ v : Z, bool_decide (0 < v)) <$> (cells : list Z)).

(** [mask &= other] on numpy arrays: elementwise, an operand of length one
    being broadcast. *)
Definition iand (mask other : list bool) : result (list bool) :=
  if decide (length other = length mask) then Ok (zip_with andb mask other)
  else match other with
       | [b] => Ok (andb b <$> mask)
       | _ => Raise ValueError
       end.

(** The loop over [selected_cards]. *)
Fixpoint presence_loop (X : sparse_matrix) (feature_names : gmap string nat)
    (mask : list bool) (selected_cards : list string) : result (list bool) :=
  match selected_cards with
  | [] => Ok mask
  | card :: cards =>
      mb_idx ← dict_getitem feature_names card;
      mb ← column_positive X mb_idx;
      sb_idx ← dict_getitem feature_names (card +:+ "_SB");
      sb ← column_positive X sb_idx;
      mask ← iand mask (zip_with orb mb sb);
      presence_loop X feature_names mask cards
  end.

(** The deck of row [i] plays [card]: the vocabulary has the mainboard and
    the sideboard column of the card, and the row has a positive count in
    one of them. *)
Definition plays (X : sparse_matrix) (feature_names : gmap string nat)
    (card : string) (i : nat) : Prop :=
  ∃ mb_idx sb_idx mb sb,
    feature_names !! card = Some mb_idx ∧
    feature_names !! (card +:+ "_SB") = Some sb_idx ∧
    dense_column X mb_idx = Ok mb ∧ dense_column X sb_idx = Ok sb ∧
    ∃ m s, mb !! i = Some m ∧ sb !! i = Some s ∧ (0 < m ∨ 0 < s).

(** Every index of the vocabulary is a column of the matrix. *)
Definition vocabulary_fits (X : sparse_matrix)
    (feature_names : gmap string nat) : Prop :=
  map_Forall (λ _ j, j < (shape (csc X)).2)%nat feature_names.

(** [df[mask]] for a boolean array as long as the frame. *)
Definition boolean_index (df : DataFrame) (mask : list bool) : DataFrame :=
  {| columns := columns df;
     rows := (filter (λ p, p.2 = true) (zip (rows df) mask)).*1 |}.

(** [df[labels]] *)
Definition select_columns (df : DataFrame) (labels : list string)
    : result DataFrame :=
  if decide (labels ⊆ columns df) then
    Ok {| columns := labels;
          rows := (λ r : row, filter (λ kv, kv.1 ∈ labels) r) <$> rows df |}
  else Raise KeyError.

(** The frame handed to the table widget. *)
Definition get_card_presence_view (X : sparse_matrix)
    (feature_names : gmap string nat) (df : DataFrame)
    (selected_cards : list string) : result DataFrame :=
  mask ← presence_loop X feature_names
            (replicate (length (rows df)) true) selected_cards;
  let filtered_df := boolean_index df mask in
  select_columns filtered_df ["Player"; "Wins"; "Losses"; "Date"].

(** *** [get_winrate_analysis] *)

(** What the method returns: a note, or the points of the curve. *)
Inductive view : Type :=
  | Markdown (text : string)
  | Curve (points : list (nat * Q)).

(** [wins/total if total else 0] *)
Definition winrate (wins total : Z) : Q :=
  if decide (total = 0) then 0%Q else (inject_Z wins / inject_Z total)%Q.

(** An [int64] result: the integer wraps around into [-2^63, 2^63). *)
Definition wrap64 (z : Z) : Z := (z + 2 ^ 63) `mod` 2 ^ 64 - 2 ^ 63.

(** [s.sum()] on an [int64] column: every addition wraps around. *)
Definition int64_sum (cells : list Z) : Z :=
  foldl (λ acc cell, wrap64 (acc + cell)) 0 cells.

(** One turn of the loop over [range(5)]; [decks] holds the [Wins] and
    [Losses] of every row of the frame, both [int64] columns. The boolean
    mask must be as long as the frame. *)
Definition winrate_point (copy_counts : list Z) (decks : list (Z * Z))
    (i : nat) : result (list (nat * Q)) :=
  let mask := (λ c, bool_decide (c = Z.of_nat i)) <$> copy_counts in
  if decide (true ∈ mask) then
    if decide (length mask = length decks) then
      let selected := (filter (λ p, p.2 = true) (zip decks mask)).*1 in
      let wins := int64_sum selected.*1 in
      let total := wrap64 (wins + int64_sum selected.*2) in
      Ok [(i, winrate wins total)]
    else Raise IndexError
  else Ok [].

Definition win_rates (copy_counts : list Z) (decks : list (Z * Z))
    : result (list (nat * Q)) :=
  points ← mapM (winrate_point copy_counts decks) (seq 0 5);
  mret (concat points).

Definition get_winrate_analysis (selected_card : string)
    (feature_names : gmap string nat) (X : sparse_matrix)
    (decks : list (Z * Z)) : result view :=
  if decide (selected_card = EmptyString) then
    Ok (Markdown "Select a card to see win rate analysis")
  else if decide (feature_names !! selected_card = None) then
    Ok (Markdown "Card not found in dataset")
  else
    mb_idx ← dict_getitem feature_names selected_card;
    copy_counts ← dense_column X mb_idx;
    points ← win_rates copy_counts decks;
    mret (Curve points).

(** The decks that have [i] copies of the card, [copy_counts] being the
    column of the card. *)
Definition decks_with (copy_counts : list Z) (decks : list (Z * Z))
    (i : nat) : list (Z * Z) :=
  (filter (λ p, p.2 = Z.of_nat i) (zip decks copy_counts)).*1.

(** The games of all decks together: wins and losses in absolute value. *)
Definition games (decks : list (Z * Z)) : Z :=
  foldr Z.add 0 ((λ d, Z.abs d.1 + Z.abs d.2) <$> decks).

(** No sum over decks of the frame leaves the [int64] range. *)
Definition within_int64 (decks : list (Z * Z)) : Prop := games decks < 2 ^ 63.

(** The exact win rate of a group of decks. *)
Definition group_winrate (group : list (Z * Z)) : Q :=
  winrate (foldr Z.add 0 group.*1)
          (foldr Z.add 0 group.*1 + foldr Z.add 0 group.*2).

(** *** Examples *)

(** A vocabulary for the 3x2 matrix: [Opt] with its sideboard column. *)
Definition small_vocabulary : gmap string nat :=
  {[ "Opt" := 0%nat; "Opt_SB" := 1%nat ]}.

(** A vocabulary in which [Duress] has a sideboard column only. *)
Definition sideboard_vocabulary : gmap string nat :=
  {[ "Opt" := 0%nat; "Duress_SB" := 1%nat ]}.

Definition deck (name : string) (wins losses : Z) : row :=
  {[ "Player" := VStr name; "Wins" := VInt wins; "Losses" := VInt losses;
     "Date" := VInt 0 ]}.

Definition small_decks : DataFrame :=
  {| columns := ["Player"; "Wins"; "Losses"; "Date"];
     rows := [deck "Al" 3 1; deck "Bo" 2 2; deck "Cy" 0 4] |}.

End Analyzer.

(** ** Facts on the [result] monad *)

Section mapM_result.
Context {A B : Type} (f : A → result B).

Lemma mapM_result_total (g : A → B) (l : list A) :
  (∀ x, x ∈ l → f x = Ok (g x)) → mapM f l = Ok (g <$> l).
Proof.
  induction l as [|x l IH]; intros Hf; [done|].
  cbn. rewrite (Hf x) by left. cbn.
  rewrite IH; [done|]. intros y Hy. apply Hf. by right.
Qed.

Lemma mapM_result_Ok_inv (l : list A) (k : list B) :
  mapM f l = Ok k → Forall2 (λ x y, f x = Ok y) l k.
Proof.
  revert k. induction l as [|x l IH]; intros k; cbn.
  - intros [= <-]. constructor.
  - destruct (f x) as [y|e] eqn:Hx; cbn; [|done].
    destruct (mapM f l) as [k'|e] eqn:Hl; cbn; [|done].
    intros [= <-]. constructor; auto.
Qed.

Lemma mapM_result_Ok (l : list A) (k : list B) :
  Forall2 (λ x y, f x = Ok y) l k → mapM f l = Ok k.
Proof.
  induction 1 as [|x y l k Hx _ IH]; [done|].
  cbn. rewrite Hx. cbn. by rewrite IH.
Qed.

Lemma mapM_result_Raise_inv (l : list A) (e : exn) :
  mapM f l = Raise e → ∃ x, x ∈ l ∧ f x = Raise e.
Proof.
  induction l as [|x l IH]; cbn; [done|].
  destruct (f x) as [y|e'] eqn:Hx; cbn.
  - destruct (mapM f l) as [k'|e'] eqn:Hl; cbn; [done|].
    intros [= ->]. destruct IH as (z & Hz & Hfz); [done|].
    exists z. split; [by right|done].
  - intros [= ->]. exists x. split; [by left|done].
Qed.

End mapM_result.

Lemma mapM_result_Forall {A B} (f : A → result B) (P : B → Prop) (l : list A) :
  (∀ x, x ∈ l → ∃ y, f x = Ok y ∧ P y) →
  ∃ k, mapM f l = Ok k ∧ length k = length l ∧ Forall P k.
Proof.
  induction l as [|x l IH]; intros Hf.
  - exists []. by repeat split.
  - destruct (Hf x) as (y & Hy & HP); [by left|].
    destruct IH as (k & Hk & Hlen & HPk); [intros z Hz; apply Hf; by right|].
    exists (y :: k). cbn. rewrite Hy. cbn. rewrite Hk. cbn.
    repeat split; [by f_equal|by constructor].
Qed.

Lemma dict_comp_total `{Countable K} {V W} (f : V → result W) (g : V → W)
    (d : gmap K V) :
  (∀ v, f v = Ok (g v)) → dict_comp f d = Ok (g <$> d).
Proof.
  intros Hf. unfold dict_comp.
  rewrite (mapM_result_total _ (prod_map id g)).
  - cbn. f_equal. rewrite list_to_map_fmap. by rewrite list_to_map_to_list.
  - intros [k v] _. cbn. by rewrite Hf.
Qed.

Lemma dict_comp_empty `{Countable K} {V W} (f : V → result W) :
  dict_comp f (∅ : gmap K V) = Ok ∅.
Proof. unfold dict_comp. by rewrite map_to_list_empty. Qed.

(** ** The sparse column profiler: properties *)

Module SparseProfileFacts.
Import SparseProfile.

Lemma sum_counts_empty : sum_counts ∅ = 0.
Proof. apply map_fold_empty. Qed.

Lemma sum_counts_insert_fresh (d : gmap Z Z) (k v : Z) :
  d !! k = None → sum_counts (<[k := v]> d) = v + sum_counts d.
Proof.
  intros Hk. unfold sum_counts.
  rewrite map_fold_insert_L; [done| |done]. intros; lia.
Qed.

Lemma sum_counts_insert (d : gmap Z Z) (k v : Z) :
  sum_counts (<[k := v]> d) = sum_counts d - default 0 (d !! k) + v.
Proof.
  destruct (d !! k) as [old|] eqn:Hk; cbn.
  - rewrite <-(insert_delete_eq d k v).
    rewrite <-(insert_delete_id d k old) at 2 by done.
    rewrite !sum_counts_insert_fresh by apply lookup_delete_eq. lia.
  - rewrite sum_counts_insert_fresh by done. lia.
Qed.


Lemma occurrences_cons (v x : Z) (xs : list Z) :
  occurrences v (x :: xs) =
  (if decide (x = v) then 1 else 0) + occurrences v xs.
Proof.
  unfold occurrences. rewrite filter_cons.
  destruct (decide (x = v)); cbn [length]; lia.
Qed.

Lemma occurrences_not_elem (v : Z) (xs : list Z) : v ∉ xs → occurrences v xs = 0.
Proof.
  induction xs as [|x xs IH]; [done|].
  rewrite not_elem_of_cons, occurrences_cons. intros [Hne Hxs].
  rewrite decide_False by done. rewrite IH by done. lia.
Qed.

Lemma count_into_lookup (c : gmap Z Z) (xs : list Z) (v : Z) :
  count_into c xs !! v =
  match c !! v with
  | Some n => Some (n + occurrences v xs)
  | None => if decide (v ∈ xs) then Some (occurrences v xs) else None
  end.
Proof.
  revert c. induction xs as [|x xs IH]; intros c.
  - cbn. destruct (c !! v); [f_equal; unfold occurrences; cbn; lia|].
    by rewrite decide_False by apply not_elem_of_nil.
  - change (count_into c (x :: xs))
      with (count_into (<[x := default 0 (c !! x) + 1]> c) xs).
    rewrite IH, occurrences_cons. destruct (decide (x = v)) as [->|Hne].
    + rewrite lookup_insert_eq.
      rewrite (decide_True (P := v ∈ v :: xs)) by left.
      destruct (c !! v); cbn; f_equal; lia.
    + rewrite lookup_insert_ne by done.
      destruct (c !! v); [f_equal; lia|].
      destruct (decide (v ∈ xs)) as [Hin|Hnin].
      * rewrite decide_True by (by right). f_equal; lia.
      * rewrite decide_False; [done|]. rewrite not_elem_of_cons. by split.
Qed.

Lemma count_into_sum (c : gmap Z Z) (xs : list Z) :
  sum_counts (count_into c xs) = sum_counts c + Z.of_nat (length xs).
Proof.
  revert c. induction xs as [|x xs IH]; intros c; [cbn; lia|].
  change (count_into c (x :: xs))
    with (count_into (<[x := default 0 (c !! x) + 1]> c) xs).
  rewrite IH, sum_counts_insert. cbn [length]. lia.
Qed.

Lemma Counter_lookup (xs : list Z) (v : Z) :
  Counter xs !! v = if decide (v ∈ xs) then Some (occurrences v xs) else None.
Proof.
  unfold Counter. by rewrite count_into_lookup, lookup_empty.
Qed.

Lemma Counter_sum (xs : list Z) : sum_counts (Counter xs) = Z.of_nat (length xs).
Proof.
  unfold Counter. by rewrite count_into_sum, sum_counts_empty.
Qed.

Lemma Counter_nil : Counter [] = ∅.
Proof. done. Qed.


(** The zero bucket and the sum of the buckets after the zero step
    [counter[0] = zeros_count]. *)
Lemma zero_step_lookup (xs : list Z) (zeros_count : Z) :
  (if decide (0 < zeros_count) then <[0 := zeros_count]> (Counter xs)
   else Counter xs) !! 0 =
  if decide (0 < zeros_count) then Some zeros_count
  else if decide (0 ∈ xs) then Some (explicit_zeros xs) else None.
Proof.
  destruct (decide (0 < zeros_count)).
  - apply lookup_insert_eq.
  - apply Counter_lookup.
Qed.

Lemma zero_step_sum (xs : list Z) (zeros_count : Z) :
  sum_counts (if decide (0 < zeros_count) then <[0 := zeros_count]> (Counter xs)
              else Counter xs) =
  if decide (0 < zeros_count)
  then Z.of_nat (length xs) - explicit_zeros xs + zeros_count
  else Z.of_nat (length xs).
Proof.
  destruct (decide (0 < zeros_count)); [|apply Counter_sum].
  rewrite sum_counts_insert, Counter_sum, Counter_lookup.
  unfold explicit_zeros. destruct (decide (0 ∈ xs)) as [|Hnin]; cbn; [done|].
  by rewrite occurrences_not_elem.
Qed.

Lemma column_counter_eq (M : csc_matrix) (j s e : nat) :
  indptr M !! j = Some s → indptr M !! S j = Some e →
  column_counter M j =
  Ok (let xs := slice (data M) s e in
      let zeros_count := Z.of_nat (shape M).1 - (Z.of_nat e - Z.of_nat s) in
      if decide (0 < zeros_count) then <[0 := zeros_count]> (Counter xs)
      else Counter xs) ∧
  column_data M j = Ok (slice (data M) s e).
Proof.
  intros Hs He. unfold column_counter, column_data, getitem.
  replace (j + 1)%nat with (S j) by lia. by rewrite Hs, He.
Qed.

Lemma length_slice {A} (xs : list A) (s e : nat) :
  (s ≤ e ≤ length xs)%nat → length (slice xs s e) = (e - s)%nat.
Proof. intros ?. unfold slice. rewrite length_take, length_drop. lia. Qed.

Lemma canonical_column (M : csc_matrix) (j : nat) :
  canonical M → (j < (shape M).2)%nat →
  ∃ s e, indptr M !! j = Some s ∧ indptr M !! S j = Some e ∧
         (s ≤ e ≤ length (data M))%nat ∧ (e - s ≤ (shape M).1)%nat.
Proof.
  intros [Hlen Hcols] Hj.
  destruct (lookup_lt_is_Some_2 (indptr M) j) as [s Hs]; [lia|].
  destruct (lookup_lt_is_Some_2 (indptr M) (S j)) as [e He]; [lia|].
  exists s, e. by destruct (Hcols j s e).
Qed.

(** Without a stored zero in the column, the counts add up to the rows. *)
Lemma column_counter_sum (M : csc_matrix) (j : nat) (xs : list Z) :
  canonical M → (j < (shape M).2)%nat →
  column_data M j = Ok xs → 0 ∉ xs →
  ∃ c, column_counter M j = Ok c ∧ sum_counts c = Z.of_nat (shape M).1.
Proof.
  intros HM Hj Hxs H0.
  destruct (canonical_column M j HM Hj) as (s & e & Hs & He & Hse & Hrows).
  destruct (column_counter_eq M j s e Hs He) as [Hc Hd].
  rewrite Hd in Hxs. injection Hxs as <-.
  eexists. split; [exact Hc|]. cbv zeta.
  rewrite zero_step_sum, (length_slice _ _ _ Hse).
  unfold explicit_zeros. rewrite occurrences_not_elem by done.
  case_decide; lia.
Qed.

Lemma sum_freqs_scaled (total : Z) (c : gmap Z Z) :
  (sum_freqs ((λ v, inject_Z v / inject_Z total) <$> c)
   == inject_Z (sum_counts c) / inject_Z total)%Q.
Proof.
  unfold sum_freqs, sum_counts. rewrite map_fold_fmap, !map_fold_foldr.
  induction (map_to_list c) as [|[k v] l IH]; cbn.
  - unfold Qdiv. ring.
  - rewrite IH, inject_Z_plus. unfold Qdiv. ring.
Qed.

Lemma column_profile_freqs (M : csc_matrix) (j : nat) (c : gmap Z Z) :
  (0 < (shape M).1)%nat → column_counter M j = Ok c →
  ∃ f, column_profile M true j = Ok (Freqs f) ∧
       (sum_freqs f == inject_Z (sum_counts c) / inject_Z (Z.of_nat (shape M).1))%Q.
Proof.
  intros Hrows Hc. unfold column_profile. rewrite Hc. cbn.
  rewrite (dict_comp_total _ (λ v, inject_Z v / inject_Z (Z.of_nat (shape M).1))%Q).
  - eexists. split; [done|]. apply sum_freqs_scaled.
  - intros v. unfold truediv. rewrite decide_False; [done|lia].
Qed.



Lemma value_counts_nth (M : csc_matrix) (normalize : bool) (P : profile → Prop) :
  (∀ j, (j < (shape M).2)%nat → ∃ p, column_profile M normalize j = Ok p ∧ P p) →
  ∃ ps, sparse_column_value_counts M normalize = Ok ps ∧
        length ps = (shape M).2 ∧ Forall P ps.
Proof.
  intros Hcol. unfold sparse_column_value_counts.
  destruct (mapM_result_Forall (column_profile M normalize) P (seq 0 (shape M).2))
    as (ps & Hps & Hlen & HP).
  - intros j Hj. apply elem_of_seq in Hj. apply Hcol. lia.
  - exists ps. by rewrite Hlen, length_seq in *.
Qed.

(** C1 (the code departs from the claim). The zero bucket should hold the
    implicit zeros plus the explicitly stored ones. On the 2x1 matrix whose
    single stored entry is a zero, that is [(2 - 1) + 1 = 2]; the profiler
    reports 1: [counter[0] = zeros_count] replaces the count of the stored
    zero instead of adding to it. *)
Theorem stored_zero_not_aggregated :
  column_data stored_zero_matrix 0 = Ok [0] ∧
  (2 - 1) + explicit_zeros [0] = 2 ∧
  sparse_column_value_counts stored_zero_matrix false = Ok [Counts {[0 := 1]}].
Proof. repeat split. Qed.

(** C2, as stated, fails: on a matrix without rows the frequencies of a
    column are the empty dict, whose sum is 0 and not 1. *)
Lemma no_rows_frequencies_sum_to_zero :
  sparse_column_value_counts no_rows_matrix true = Ok [Freqs ∅] ∧
  ¬ (sum_freqs ∅ == 1)%Q.
Proof. split; [reflexivity|]. by intros [=]. Qed.

(** C2 (amended). For a canonical matrix none of whose columns stores a
    zero, the bucket counts of every column add up to the row count with
    [normalize=False]; when the matrix has at least one row, the bucket
    frequencies of every column add up to 1 with [normalize=True]
    (frequencies as exact rationals). *)
Theorem bucket_sums (M : csc_matrix) :
  canonical M →
  (∀ j xs, column_data M j = Ok xs → 0 ∉ xs) →
  (∃ ps, sparse_column_value_counts M false = Ok ps ∧
         length ps = (shape M).2 ∧
         Forall (λ p, ∃ c, p = Counts c ∧
                           sum_counts c = Z.of_nat (shape M).1) ps) ∧
  ((0 < (shape M).1)%nat →
   ∃ ps, sparse_column_value_counts M true = Ok ps ∧
         length ps = (shape M).2 ∧
         Forall (λ p, ∃ f, p = Freqs f ∧ (sum_freqs f == 1)%Q) ps).
Proof.
  intros HM Hzero.
  assert (Hcol : ∀ j, (j < (shape M).2)%nat →
    ∃ c, column_counter M j = Ok c ∧ sum_counts c = Z.of_nat (shape M).1).
  { intros j Hj.
    destruct (canonical_column M j HM Hj) as (s & e & Hs & He & _).
    destruct (column_counter_eq M j s e Hs He) as [_ Hd].
    eapply column_counter_sum; eauto. }
  split; [|intros Hrows]; apply value_counts_nth; intros j Hj;
    destruct (Hcol j Hj) as (c & Hc & Hsum).
  - exists (Counts c). split; [|by exists c].
    unfold column_profile. by rewrite Hc.
  - destruct (column_profile_freqs M j c Hrows Hc) as (f & Hf & Hsumf).
    exists (Freqs f). split; [done|]. exists f. split; [done|].
    rewrite Hsumf, Hsum. field.
    change 0%Q with (inject_Z 0). rewrite inject_Z_injective. lia.
Qed.

Lemma bucket_sums_witness :
  (∃ ps, sparse_column_value_counts small_matrix false = Ok ps ∧
         length ps = 2%nat ∧
         Forall (λ p, ∃ c, p = Counts c ∧ sum_counts c = 3) ps) ∧
  ((0 < 3)%nat →
   ∃ ps, sparse_column_value_counts small_matrix true = Ok ps ∧
         length ps = 2%nat ∧
         Forall (λ p, ∃ f, p = Freqs f ∧ (sum_freqs f == 1)%Q) ps).
Proof.
  apply (bucket_sums small_matrix).
  - split; [reflexivity|].
    intros [|[|[|j]]] s e; cbn; intros Hs He; simplify_eq; cbn; lia.
  - intros [|[|[|j]]] xs Hxs; cbv in Hxs; try discriminate;
      injection Hxs as <-; rewrite !elem_of_cons, elem_of_nil;
      intros Hin; intuition discriminate.
Defined.

(** C5, as stated, fails: on a 0x2 matrix with [normalize=True] the
    profiler raises nothing and returns two empty profiles. *)
Lemma no_rows_normalize_returns :
  sparse_column_value_counts no_rows_matrix2 true = Ok [Freqs ∅; Freqs ∅] ∧
  ¬ ∃ e, sparse_column_value_counts no_rows_matrix2 true = Raise e.
Proof. split; [reflexivity|]. by intros [e [=]]. Qed.

(** C5 (amended). On a canonical matrix without rows and with
    [normalize=True] the profiler raises no error: it returns one empty
    profile per column. *)
Theorem no_rows_profile (M : csc_matrix) :
  canonical M → (shape M).1 = 0%nat →
  sparse_column_value_counts M true = Ok (replicate (shape M).2 (Freqs ∅)).
Proof.
  intros HM Hrows. unfold sparse_column_value_counts.
  rewrite (mapM_result_total _ (λ _, Freqs ∅)).
  - f_equal. rewrite const_fmap with (y := Freqs ∅) by done.
    by rewrite length_seq.
  - intros j Hj. apply elem_of_seq in Hj.
    destruct (canonical_column M j HM) as (s & e & Hs & He & Hse & Hle); [lia|].
    destruct (column_counter_eq M j s e Hs He) as [Hc _].
    unfold column_profile. rewrite Hc. cbn.
    assert (e = s) as -> by lia.
    unfold slice. rewrite Nat.sub_diag, take_0, Counter_nil.
    rewrite decide_False by lia. cbn. by rewrite dict_comp_empty.
Qed.

Lemma no_rows_profile_witness :
  sparse_column_value_counts no_rows_matrix true = Ok (replicate 1 (Freqs ∅)).
Proof.
  apply (no_rows_profile no_rows_matrix); [|reflexivity].
  split; [reflexivity|].
  intros [|[|j]] s e; cbn; intros Hs He; simplify_eq; cbn; lia.
Defined.

End SparseProfileFacts.

(** ** The fuzzy join: properties *)

Module FuzzyJoinFacts.
Import FuzzyJoin.

(** *** [argmin]: bounds and the tie-break *)

Lemma beats_irrefl (x : distance) : beats x x = false.
Proof. destruct x; cbn; [|done..]. apply bool_decide_eq_false. lia. Qed.

Lemma beats_weak_trans (x y z : distance) :
  beats x y = true → beats z y = false → beats x z = true.
Proof.
  destruct x, y, z; cbn; try done.
  rewrite !bool_decide_eq_true, bool_decide_eq_false. lia.
Qed.

Lemma not_beats_trans (x y z : distance) :
  beats y x = true → beats z x = false → beats z y = false.
Proof.
  destruct x, y, z; cbn; try done.
  rewrite bool_decide_eq_true, !bool_decide_eq_false. lia.
Qed.

Lemma argmin_from_bound (xs : list distance) (best_i : nat) (best : distance)
    (i : nat) :
  (best_i < i)%nat → (argmin_from best_i best i xs < i + length xs)%nat.
Proof.
  revert best_i best i. induction xs as [|x xs IH]; intros best_i best i Hi.
  - cbn. lia.
  - cbn [argmin_from length]. destruct (beats x best).
    + specialize (IH i x (S i)). lia.
    + specialize (IH best_i best (S i)). lia.
Qed.

(** The scan keeps this invariant: [best] sits at [best_i], nothing seen so
    far beats it, and it beats everything seen before [best_i]. *)
Lemma argmin_from_first (pre xs : list distance) (best_i : nat) (best : distance) :
  pre !! best_i = Some best →
  (∀ j y, pre !! j = Some y → beats y best = false) →
  (∀ j y, (j < best_i)%nat → pre !! j = Some y → beats best y = true) →
  ∃ b, (pre ++ xs) !! argmin_from best_i best (length pre) xs = Some b ∧
       (∀ j y, (pre ++ xs) !! j = Some y → beats y b = false) ∧
       (∀ j y, (j < argmin_from best_i best (length pre) xs)%nat →
               (pre ++ xs) !! j = Some y → beats b y = true).
Proof.
  revert pre best_i best. induction xs as [|x xs IH]; intros pre best_i best.
  - intros Hbest Hmin Hfirst. rewrite app_nil_r. cbn. eauto.
  - intros Hbest Hmin Hfirst. cbn [argmin_from].
    specialize (IH (pre ++ [x])).
    rewrite length_app, Nat.add_1_r, <-app_assoc in IH. cbn in IH.
    pose proof (lookup_lt_Some _ _ _ Hbest) as Hlt.
    destruct (beats x best) eqn:Hx; apply IH.
    + rewrite lookup_app_r, Nat.sub_diag by lia. done.
    + intros j y Hy. apply lookup_app_Some in Hy as [Hy|[_ Hy]].
      * eapply not_beats_trans; eauto.
      * apply list_lookup_singleton_Some in Hy as [_ <-]. apply beats_irrefl.
    + intros j y Hj Hy. rewrite lookup_app_l in Hy by lia.
      eapply beats_weak_trans; eauto.
    + by apply lookup_app_l_Some.
    + intros j y Hy. apply lookup_app_Some in Hy as [Hy|[_ Hy]]; [eauto|].
      by apply list_lookup_singleton_Some in Hy as [_ <-].
    + intros j y Hj Hy. rewrite lookup_app_l in Hy by lia. eauto.
Qed.

(** [argmin] returns the first position of the minimum: nothing beats the
    entry it points to, and that entry beats every earlier one. *)
Lemma argmin_first (xs : list distance) (i : nat) :
  argmin xs = Ok i →
  ∃ b, xs !! i = Some b ∧
       (∀ j y, xs !! j = Some y → beats y b = false) ∧
       (∀ j y, (j < i)%nat → xs !! j = Some y → beats b y = true).
Proof.
  destruct xs as [|x xs]; [done|]. intros [= <-].
  apply (argmin_from_first [x] xs 0 x).
  - done.
  - intros [|j] y; [|done]. intros [= <-]. apply beats_irrefl.
  - intros j y Hj. lia.
Qed.

Lemma argmin_bound (xs : list distance) :
  xs ≠ [] → ∃ i, argmin xs = Ok i ∧ (i < length xs)%nat.
Proof.
  destruct xs as [|x xs]; [done|]. intros _. eexists. split; [done|].
  pose proof (argmin_from_bound xs 0 x 1). cbn [length]. lia.
Qed.


(** *** The distance matrix keeps its shape and the loop its indices *)

Lemma has_shape_concat (d : list (list distance)) (shape : nat * nat) :
  has_shape d shape → length (concat d) = (shape.1 * shape.2)%nat.
Proof.
  destruct shape as [m n]. intros [<- Hrows]. cbn in *.
  induction Hrows as [|r d Hr _ IH]; [done|].
  change (concat (r :: d)) with (r ++ concat d).
  rewrite length_app, IH, Hr. cbn [length]. lia.
Qed.

Lemma has_shape_mask (d : list (list distance)) (shape : nat * nat) (i j : nat) :
  has_shape d shape → has_shape (mask i j d) shape.
Proof.
  intros [Hlen Hrows]. unfold mask. split.
  - by rewrite length_fmap, length_alter.
  - apply Forall_fmap, Forall_lookup. intros k r Hk. cbn.
    rewrite length_insert.
    rewrite Forall_lookup in Hrows.
    rewrite list_lookup_alter in Hk.
    case_decide; [|by eauto]. subst i.
    apply fmap_Some in Hk as (r' & Hr' & ->).
    rewrite length_fmap. eauto.
Qed.

Lemma unravel_index_bound (idx : nat) (shape : nat * nat) :
  (idx < shape.1 * shape.2)%nat →
  ∃ p, unravel_index idx shape = Ok p ∧ (p.1 < shape.1)%nat ∧ (p.2 < shape.2)%nat.
Proof.
  intros Hidx. unfold unravel_index. rewrite decide_True by done.
  eexists. split; [done|]. cbn. split.
  - apply Nat.Div0.div_lt_upper_bound. lia.
  - apply Nat.mod_upper_bound. lia.
Qed.

(** On a non-empty matrix the loop finds [k] pairs, whatever [k], and each
    pair indexes a row and a column of the matrix. *)
Lemma greedy_total (k : nat) (shape : nat * nat) (d : list (list distance)) :
  has_shape d shape → (0 < shape.1 * shape.2)%nat →
  ∃ ps, greedy k shape d = Ok ps ∧ length ps = k ∧
        Forall (λ p, (p.1 < shape.1)%nat ∧ (p.2 < shape.2)%nat) ps.
Proof.
  revert d. induction k as [|k IH]; intros d Hd Hpos.
  - exists []. by repeat split.
  - pose proof (has_shape_concat d shape Hd) as Hlen.
    destruct (argmin_bound (concat d)) as (idx & Hidx & Hlt).
    { intros Hnil. rewrite Hnil in Hlen. cbn in Hlen. lia. }
    destruct (unravel_index_bound idx shape) as (p & Hp & Hp1 & Hp2); [lia|].
    destruct (IH (mask p.1 p.2 d)) as (ps & Hps & Hk & Hall);
      [by apply has_shape_mask|done|].
    exists (p :: ps). cbn. rewrite Hidx. cbn. rewrite Hp. cbn. rewrite Hps. cbn.
    repeat split; [by f_equal|by constructor].
Qed.

(** *** One turn of the loop over the ambiguous names *)

Lemma distance_matrix_total (df1 df2 : DataFrame) (l1 l2 : list row) :
  "Rank" ∈ columns df1 → "Rank" ∈ columns df2 →
  Forall (λ r : row, numeric (r !! "Rank")) l1 →
  Forall (λ r : row, numeric (r !! "Rank")) l2 →
  ∃ d, distance_matrix df1 df2 l1 l2 = Ok d ∧ has_shape d (length l1, length l2).
Proof.
  intros H1 H2 Hl1 Hl2. unfold distance_matrix.
  destruct (mapM_result_Forall
    (λ row1, mapM (λ row2,
       rank1 ← getattr df1 row1 "Rank";
       rank2 ← getattr df2 row2 "Rank";
       rank_distance rank1 rank2) l2)
    (λ r, length r = length l2) l1) as (d & Hd & Hlen & Hrows).
  - intros r1 Hr1. rewrite Forall_forall in Hl1. specialize (Hl1 r1 Hr1).
    destruct (mapM_result_Forall
      (λ row2,
         rank1 ← getattr df1 r1 "Rank";
         rank2 ← getattr df2 row2 "Rank";
         rank_distance rank1 rank2) (λ _, True) l2) as (k & Hk & Hklen & _);
      [|by eauto].
    intros r2 Hr2. rewrite Forall_forall in Hl2. specialize (Hl2 r2 Hr2).
    unfold getattr. rewrite !decide_True by done. cbn.
    destruct (r1 !! "Rank") as [[s|a]|] eqn:Ha; [done|..];
      (destruct (r2 !! "Rank") as [[s|b]|] eqn:Hb; [done|..]);
      cbn; eauto.
  - exists d. by repeat split.
Qed.

Lemma distance_matrix_raise (df1 df2 : DataFrame) (l1 l2 : list row) (e : exn) :
  distance_matrix df1 df2 l1 l2 = Raise e → e = rank_error df1 df2.
Proof.
  intros Hd. unfold rank_error.
  apply mapM_result_Raise_inv in Hd as (r1 & _ & Hd).
  apply mapM_result_Raise_inv in Hd as (r2 & _ & Hd).
  unfold getattr in Hd.
  destruct (decide ("Rank" ∈ columns df1)); cbn in Hd;
    [|by rewrite decide_False by tauto; simplify_eq].
  destruct (decide ("Rank" ∈ columns df2)); cbn in Hd;
    [|by rewrite decide_False by tauto; simplify_eq].
  rewrite decide_True by done.
  destruct (r1 !! "Rank") as [[?|?]|], (r2 !! "Rank") as [[?|?]|]; by simplify_eq/=.
Qed.

Lemma distance_matrix_unranked (df1 df2 : DataFrame) (l1 l2 : list row) :
  ¬ ("Rank" ∈ columns df1 ∧ "Rank" ∈ columns df2) →
  (0 < length l1)%nat → (0 < length l2)%nat →
  distance_matrix df1 df2 l1 l2 = Raise AttributeError.
Proof.
  intros Hrank H1 H2.
  destruct l1 as [|r1 l1]; [cbn in H1; lia|].
  destruct l2 as [|r2 l2]; [cbn in H2; lia|].
  unfold distance_matrix, getattr. cbn.
  destruct (decide ("Rank" ∈ columns df1)); cbn; [|done].
  rewrite decide_False by tauto. done.
Qed.

Lemma fuzzy_match_skip (df1 df2 : DataFrame) (name : value) :
  ¬ (0 < length (rows_named df1 name) ∧ 0 < length (rows_named df2 name))%nat →
  fuzzy_match df1 df2 name = Ok [].
Proof. intros Hlen. unfold fuzzy_match. by rewrite decide_False. Qed.

Lemma fuzzy_match_raise (df1 df2 : DataFrame) (name : value) (e : exn) :
  (0 < length (rows_named df1 name) ∧ 0 < length (rows_named df2 name))%nat →
  distance_matrix df1 df2 (rows_named df1 name) (rows_named df2 name) = Raise e →
  fuzzy_match df1 df2 name = Raise e.
Proof.
  intros Hlen Hd. unfold fuzzy_match, matched_pairs.
  rewrite decide_True by done. by rewrite Hd.
Qed.

Lemma fuzzy_match_pairs (df1 df2 : DataFrame) (name : value)
    (d : list (list distance)) :
  "Player" ∈ columns df1 → "Rank" ∈ columns df1 → "Rank" ∈ columns df2 →
  (0 < length (rows_named df1 name) ∧ 0 < length (rows_named df2 name))%nat →
  distance_matrix df1 df2 (rows_named df1 name) (rows_named df2 name) = Ok d →
  has_shape d (length (rows_named df1 name), length (rows_named df2 name)) →
  ∃ frames, fuzzy_match df1 df2 name = Ok frames ∧
    length frames = (length (rows_named df1 name) `min`
                     length (rows_named df2 name))%nat ∧
    Forall (joined_from df1 df2 name) frames.
Proof.
  intros HP HR1 HR2 Hlen Hd Hshape. unfold fuzzy_match, matched_pairs.
  rewrite decide_True by done. rewrite Hd. cbn.
  set (l1 := rows_named df1 name) in *. set (l2 := rows_named df2 name) in *.
  destruct (greedy_total (length l1 `min` length l2) (length l1, length l2) d)
    as (ps & Hps & Hk & Hrange); [done|cbn; nia|].
  rewrite Hps. cbn.
  destruct (mapM_result_Forall
    (λ p, row_df1 ← getitem l1 p.1; row_df2 ← getitem l2 p.2;
          joined_row df1 df2 row_df1 row_df2)
    (joined_from df1 df2 name) ps) as (frames & Hframes & Hflen & Hall).
  - intros p Hp. rewrite Forall_forall in Hrange.
    destruct (Hrange p Hp) as [Hp1 Hp2]. cbn in Hp1, Hp2.
    destruct (lookup_lt_is_Some_2 l1 p.1 Hp1) as [r1 Hr1].
    destruct (lookup_lt_is_Some_2 l2 p.2 Hp2) as [r2 Hr2].
    unfold getitem. rewrite Hr1, Hr2. cbn.
    unfold joined_row, row_getitem. rewrite !decide_True by done. cbn.
    eexists. split; [done|]. split; [done|].
    apply list_elem_of_lookup_2 in Hr1, Hr2.
    exists r1, r2. repeat split; [done..|].
    cbn. apply list_elem_of_filter in Hr1 as [-> _]. done.
  - exists frames. rewrite Hflen, Hk. done.
Qed.

(** *** Rows given cell by cell *)

Lemma row_of_cells_cons (c : string) (o : option value)
    (cells : list (string * option value)) :
  row_of_cells ((c, o) :: cells) =
  match o with
  | Some v => <[c := v]> (row_of_cells cells)
  | None => row_of_cells cells
  end.
Proof. unfold row_of_cells. by destruct o. Qed.

Lemma row_of_cells_elem (cells : list (string * option value)) (c : string)
    (v : value) :
  row_of_cells cells !! c = Some v → (c, Some v) ∈ cells.
Proof.
  induction cells as [|[c' o] cells IH]; [done|].
  rewrite row_of_cells_cons. destruct o as [w|].
  - rewrite lookup_insert. case_decide as Hc.
    + intros [= ->]. subst. left.
    + intros ?. right. auto.
  - intros ?. right. auto.
Qed.

Lemma row_of_cells_absent (cells : list (string * option value)) (c : string) :
  c ∉ cells.*1 → row_of_cells cells !! c = None.
Proof.
  intros Hc. destruct (row_of_cells cells !! c) as [v|] eqn:Hv; [|done].
  destruct Hc. apply row_of_cells_elem in Hv.
  by apply (list_elem_of_fmap_2 fst) in Hv.
Qed.

Lemma row_of_cells_lookup (cells : list (string * option value)) (c : string)
    (o : option value) :
  NoDup cells.*1 → (c, o) ∈ cells → row_of_cells cells !! c = o.
Proof.
  induction cells as [|[c' o'] cells IH]; intros Hnd Hin.
  - by apply elem_of_nil in Hin.
  - apply NoDup_cons in Hnd as [Hc' Hnd]. rewrite row_of_cells_cons.
    apply elem_of_cons in Hin as [[= -> ->]|Hin].
    + destruct o' as [v|]; [apply lookup_insert_eq|].
      by apply row_of_cells_absent.
    + assert (c ≠ c').
      { intros ->. apply Hc'. by apply (list_elem_of_fmap_2 fst) in Hin. }
      destruct o' as [v|]; [rewrite lookup_insert_ne by done|]; auto.
Qed.

Lemma joined_cells_name (a b c : option value) :
  row_of_cells [("name", a); ("rank_df1", b); ("rank_df2", c)] !! "name" = a.
Proof.
  apply row_of_cells_lookup; [|left]. cbn.
  by apply (bool_decide_unpack _).
Qed.

Lemma joined_cells_only (a b c : option value) (label : string) :
  label ∉ ["name"; "rank_df1"; "rank_df2"] →
  row_of_cells [("name", a); ("rank_df1", b); ("rank_df2", c)] !! label = None.
Proof. intros Hl. by apply row_of_cells_absent. Qed.

(** *** Which names are ambiguous *)

Lemma count_named (l : list row) (v : value) :
  length (filter (λ w, w = v) (omap id ((λ r : row, r !! "Player") <$> l))) =
  length (filter (λ r : row, r !! "Player" = Some v) l).
Proof.
  induction l as [|r l IH]; [done|].
  rewrite fmap_cons, (filter_cons (λ r : row, r !! "Player" = Some v)).
  destruct (r !! "Player") as [w|] eqn:Hw.
  - change (omap id (Some w :: ?k)) with (w :: omap id k).
    rewrite filter_cons. destruct (decide (w = v)) as [->|Hne].
    + rewrite decide_True by done. cbn [length]. by rewrite IH.
    + rewrite decide_False by congruence. done.
  - change (omap id (None :: ?k)) with (omap id k).
    rewrite decide_False by done. done.
Qed.

Lemma elem_of_duplicated (df : DataFrame) (v : value) :
  v ∈ duplicated ((λ r, r !! "Player") <$> rows df) ↔
  (1 < length (rows_named df v))%nat.
Proof.
  unfold duplicated, value_counts, rows_named. rewrite <-count_named.
  set (vals := omap id _). rewrite list_elem_of_fmap. split.
  - intros ([w n] & -> & Hin). apply list_elem_of_filter in Hin as [Hn Hin].
    apply list_elem_of_fmap in Hin as (w' & [= -> ->] & _). done.
  - intros Hn. eexists (v, _). split; [done|].
    apply list_elem_of_filter. split; [done|].
    apply list_elem_of_fmap. exists v. split; [done|].
    apply elem_of_remove_dups.
    destruct (filter (λ w, w = v) vals) as [|w ws] eqn:Hf; [cbn in Hn; lia|].
    assert (w ∈ filter (λ w, w = v) vals) as Hw by (rewrite Hf; left).
    by apply list_elem_of_filter in Hw as [-> ?].
Qed.

Lemma elem_of_ambiguous_names (set_iter : list value → list value)
    (df1 df2 : DataFrame) (v : value) :
  set_listing set_iter →
  v ∈ ambiguous_names set_iter df1 df2 ↔
  (1 < length (rows_named df1 v) ∨ 1 < length (rows_named df2 v))%nat.
Proof.
  intros Hset. unfold ambiguous_names. rewrite (Hset _).
  by rewrite elem_of_remove_dups, elem_of_app, !elem_of_duplicated.
Qed.

Lemma NoDup_ambiguous_names (set_iter : list value → list value)
    (df1 df2 : DataFrame) :
  set_listing set_iter → NoDup (ambiguous_names set_iter df1 df2).
Proof.
  intros Hset. unfold ambiguous_names. rewrite (Hset _).
  apply NoDup_remove_dups.
Qed.


(** *** The frames of the fuzzy phase *)

Lemma fuzzy_match_inv (df1 df2 : DataFrame) (name : value)
    (frames : list DataFrame) :
  fuzzy_match df1 df2 name = Ok frames →
  Forall (joined_from df1 df2 name) frames.
Proof.
  unfold fuzzy_match. case_decide; [|by intros [= <-]].
  destruct (matched_pairs df1 df2 name) as [ps|]; cbn; [|done].
  intros Hframes. apply mapM_result_Ok_inv in Hframes.
  induction Hframes as [|p frame ps frames Hp _ IH]; constructor; [|done].
  unfold getitem in Hp.
  destruct (rows_named df1 name !! p.1) as [r1|] eqn:Hr1; cbn in Hp; [|done].
  destruct (rows_named df2 name !! p.2) as [r2|] eqn:Hr2; cbn in Hp; [|done].
  unfold joined_row, row_getitem in Hp.
  destruct (decide ("Player" ∈ columns df1)); cbn in Hp; [|done].
  destruct (decide ("Rank" ∈ columns df1)); cbn in Hp; [|done].
  destruct (decide ("Rank" ∈ columns df2)); cbn in Hp; [|done].
  injection Hp as <-.
  apply list_elem_of_lookup_2 in Hr1, Hr2.
  split; [done|]. exists r1, r2. repeat split; [done..|].
  cbn. by apply list_elem_of_filter in Hr1 as [-> _].
Qed.

Lemma fuzzy_results_Ok (df1 df2 : DataFrame) (names : list value)
    (fuzzy : list DataFrame) :
  fuzzy_results df1 df2 names = Ok fuzzy ↔
  ∃ frames, Forall2 (λ x fs, fuzzy_match df1 df2 x = Ok fs) names frames ∧
            fuzzy = concat frames.
Proof.
  unfold fuzzy_results. split.
  - destruct (mapM _ names) as [frames|] eqn:Hm; cbn; [|done].
    intros [= <-]. exists frames. split; [|done]. by apply mapM_result_Ok_inv.
  - intros (frames & Hm & ->). apply mapM_result_Ok in Hm. by rewrite Hm.
Qed.

Lemma fuzzy_results_Raise (df1 df2 : DataFrame) (names : list value) (e : exn) :
  fuzzy_results df1 df2 names = Raise e →
  ∃ x, x ∈ names ∧ fuzzy_match df1 df2 x = Raise e.
Proof.
  unfold fuzzy_results.
  destruct (mapM _ names) as [frames|e'] eqn:Hm; cbn; [done|].
  intros [= ->]. by apply mapM_result_Raise_inv.
Qed.

Lemma fuzzy_results_frames (df1 df2 : DataFrame) (names : list value)
    (fuzzy : list DataFrame) :
  fuzzy_results df1 df2 names = Ok fuzzy →
  Forall (λ frame, ∃ x, x ∈ names ∧ joined_from df1 df2 x frame) fuzzy.
Proof.
  intros (frames & Hm & ->)%fuzzy_results_Ok.
  induction Hm as [|x fs names frames Hx _ IH]; [constructor|].
  cbn. apply Forall_app. split.
  - apply fuzzy_match_inv in Hx. eapply Forall_impl; [exact Hx|].
    intros frame ?. exists x. split; [left|done].
  - eapply Forall_impl; [exact IH|].
    intros frame (y & ? & ?). exists y. split; [by right|done].
Qed.

(** *** [fuzzy_join] in closed form *)

Lemma list_difference_nil {A} `{EqDecision A} (l : list A) :
  list_difference l [] = l.
Proof.
  induction l as [|x l IH]; [done|]. cbn.
  destruct (decide_rel _ x []) as [Hin|_]; [by apply elem_of_nil in Hin|].
  by rewrite IH.
Qed.

Lemma list_difference_self {A} `{EqDecision A} (l k : list A) :
  l ⊆ k → list_difference l k = [].
Proof.
  induction l as [|x l IH]; [done|]. intros Hsub. cbn.
  destruct (decide_rel _ x k) as [_|Hnin]; [|destruct Hnin; apply Hsub; left].
  apply IH. intros y ?. apply Hsub. by right.
Qed.

Lemma concat_columns (labels : list string) (frames : list DataFrame) :
  frames ≠ [] → Forall (λ frame, columns frame = labels) frames →
  foldl (λ acc df, acc ++ list_difference (columns df) acc) [] frames = labels.
Proof.
  destruct frames as [|frame frames]; [done|]. intros _ Hall.
  apply Forall_cons in Hall as [Hframe Hall]. cbn.
  rewrite Hframe, list_difference_nil. clear Hframe.
  induction Hall as [|frame' frames Hframe' _ IH]; [done|].
  cbn. rewrite Hframe', list_difference_self by done. by rewrite app_nil_r.
Qed.

Lemma pd_concat_nonempty (frames : list DataFrame) :
  frames ≠ [] →
  pd_concat frames =
  Ok {| columns := foldl (λ acc df, acc ++ list_difference (columns df) acc)
                         [] frames;
        rows := frames ≫= rows |}.
Proof. by destruct frames. Qed.

Lemma player_in_merge_columns (df1 df2 : DataFrame) :
  "Player" ∈ columns df1 →
  "Player" ∈ merge_columns "Player" no_suffix "_standings" df1 df2.
Proof.
  intros HP. unfold merge_columns. apply elem_of_app. left.
  apply list_elem_of_fmap. exists "Player". split; [|done].
  unfold left_label. by rewrite decide_False by tauto.
Qed.

Lemma fuzzy_join_eq (set_iter : list value → list value) (df1 df2 : DataFrame) :
  "Player" ∈ columns df1 → "Player" ∈ columns df2 →
  fuzzy_join set_iter df1 df2 =
  fuzzy ← fuzzy_results df1 df2 (ambiguous_names set_iter df1 df2);
  mret (combined df1 df2 (ambiguous_names set_iter df1 df2) fuzzy).
Proof.
  intros HP1 HP2. unfold fuzzy_join, pd_merge, duplicate_names, clean_join, column.
  rewrite decide_True by done. cbn.
  rewrite !decide_True by done. cbn.
  rewrite decide_True by by apply player_in_merge_columns. cbn.
  fold (ambiguous_names set_iter df1 df2).
  destruct (fuzzy_results df1 df2 _) as [fuzzy|e] eqn:Hfuzzy; cbn; [|done].
  unfold combined, exact_rows.
  destruct (decide (fuzzy ≠ [])) as [Hne|Hnil].
  - rewrite (pd_concat_nonempty fuzzy) by done.
    rewrite (concat_columns ["name"; "rank_df1"; "rank_df2"]); [|done|].
    + cbn. by rewrite list_difference_nil, app_nil_r.
    + apply fuzzy_results_frames in Hfuzzy.
      eapply Forall_impl; [exact Hfuzzy|]. by intros ? (? & _ & ? & _).
  - apply dec_stable in Hnil as ->. cbn. by rewrite app_nil_r.
Qed.

(** *** The fuzzy phase on tables of player records *)

Lemma ranked_rows_named (df : DataFrame) (name : value) :
  ranked df →
  Forall (λ r : row, numeric (r !! "Rank")) (rows_named df name).
Proof.
  intros (_ & _ & Hrows). rewrite Forall_forall in *.
  intros r Hr. apply Hrows. by apply list_elem_of_filter in Hr as [_ ?].
Qed.

Lemma fuzzy_match_ranked (df1 df2 : DataFrame) (name : value) :
  ranked df1 → ranked df2 →
  ∃ frames, fuzzy_match df1 df2 name = Ok frames ∧
    length frames = (length (rows_named df1 name) `min`
                     length (rows_named df2 name))%nat ∧
    Forall (joined_from df1 df2 name) frames.
Proof.
  intros H1 H2.
  destruct (decide (0 < length (rows_named df1 name) ∧
                    0 < length (rows_named df2 name))%nat) as [Hlen|Hlen].
  - destruct (distance_matrix_total df1 df2
      (rows_named df1 name) (rows_named df2 name)) as (d & Hd & Hshape);
      [apply H1|apply H2|by apply ranked_rows_named|by apply ranked_rows_named|].
    apply (fuzzy_match_pairs df1 df2 name d);
      [apply H1|apply H1|apply H2|done|done|done].
  - exists []. rewrite fuzzy_match_skip by done.
    repeat split; [cbn; lia|constructor].
Qed.

Lemma fuzzy_results_ranked (df1 df2 : DataFrame) (names : list value) :
  ranked df1 → ranked df2 →
  ∃ frames,
    Forall2 (λ x fs, fuzzy_match df1 df2 x = Ok fs) names frames ∧
    fuzzy_results df1 df2 names = Ok (concat frames).
Proof.
  intros H1 H2.
  assert (∃ frames,
    Forall2 (λ x fs, fuzzy_match df1 df2 x = Ok fs) names frames)
    as [frames Hframes].
  { induction names as [|x names [frames IH]]; [by exists []|].
    destruct (fuzzy_match_ranked df1 df2 x H1 H2) as (fs & Hfs & _).
    exists (fs :: frames). by constructor. }
  exists frames. split; [done|]. apply fuzzy_results_Ok. eauto.
Qed.

(** The rows of the fuzzy phase that bear [name]. *)
Lemma joined_from_count (df1 df2 : DataFrame) (x name : value)
    (fs : list DataFrame) :
  Forall (joined_from df1 df2 x) fs →
  length (filter (λ r : row, r !! "name" = Some name) (fs ≫= rows)) =
  if decide (x = name) then length fs else 0%nat.
Proof.
  induction 1 as [|frame fs (_ & r1 & r2 & _ & _ & Hrows) _ IH].
  - by destruct (decide (x = name)).
  - cbn. rewrite Hrows. cbn [app]. rewrite filter_cons, joined_cells_name.
    destruct (decide (x = name)) as [->|Hne].
    + rewrite decide_True by done. cbn [length]. by rewrite IH.
    + rewrite decide_False by congruence. done.
Qed.

Lemma fuzzy_rows_absent (df1 df2 : DataFrame) (name : value)
    (names : list value) (frames : list (list DataFrame)) :
  Forall2 (λ x fs, fuzzy_match df1 df2 x = Ok fs) names frames →
  name ∉ names →
  filter (λ r : row, r !! "name" = Some name) (concat frames ≫= rows) = [].
Proof.
  induction 1 as [|x fs names frames Hx _ IH]; [done|].
  rewrite not_elem_of_cons. intros [Hne Hnin].
  cbn. rewrite bind_app, filter_app, IH by done. rewrite app_nil_r.
  apply fuzzy_match_inv in Hx.
  pose proof (joined_from_count df1 df2 x name fs Hx) as Hcount.
  rewrite decide_False in Hcount by congruence.
  by apply nil_length_inv.
Qed.

Lemma fuzzy_rows_count (df1 df2 : DataFrame) (name : value)
    (names : list value) (frames : list (list DataFrame)) (fs : list DataFrame) :
  Forall2 (λ x fs, fuzzy_match df1 df2 x = Ok fs) names frames →
  NoDup names → name ∈ names → fuzzy_match df1 df2 name = Ok fs →
  length (filter (λ r : row, r !! "name" = Some name) (concat frames ≫= rows)) =
  length fs.
Proof.
  induction 1 as [|x fs' names frames Hx Hrest IH]; intros Hnd Hin Hfs.
  - by apply elem_of_nil in Hin.
  - apply NoDup_cons in Hnd as [Hx' Hnd].
    cbn. rewrite bind_app, filter_app, length_app.
    rewrite (joined_from_count df1 df2 x name fs')
      by by apply fuzzy_match_inv.
    destruct (decide (x = name)) as [->|Hne].
    + rewrite (fuzzy_rows_absent df1 df2 name names frames) by done.
      rewrite Hx in Hfs. injection Hfs as ->. cbn. lia.
    + apply elem_of_cons in Hin as [->|Hin]; [done|]. by rewrite IH.
Qed.

(** C3. On tables of player records with string names whose joined labels
    are distinct, a name ambiguous in either table, with [m] rows in the first table and [n]
    in the second, gives exactly [min m n] records, all from the fuzzy
    phase; the join raises nothing and the exact phase keeps no row of that
    name. *)
Theorem ambiguous_name_records (set_iter : list value → list value)
    (df1 df2 : DataFrame) (name : value) :
  set_listing set_iter → ranked df1 → ranked df2 → distinct_labels df1 df2 →
  string_names df1 → string_names df2 →
  (1 < length (rows_named df1 name) ∨ 1 < length (rows_named df2 name))%nat →
  ∃ out fuzzy,
    fuzzy_join set_iter df1 df2 = Ok out ∧
    fuzzy_results df1 df2 (ambiguous_names set_iter df1 df2) = Ok fuzzy ∧
    rows out =
      exact_rows df1 df2 (ambiguous_names set_iter df1 df2) ++ (fuzzy ≫= rows) ∧
    Forall (λ r : row, r !! "Player" ≠ Some name)
           (exact_rows df1 df2 (ambiguous_names set_iter df1 df2)) ∧
    length (filter (λ r : row, r !! "name" = Some name) (fuzzy ≫= rows)) =
      (length (rows_named df1 name) `min` length (rows_named df2 name))%nat.
Proof.
  intros Hset H1 H2 _ _ _ Hamb.
  set (names := ambiguous_names set_iter df1 df2).
  destruct (fuzzy_results_ranked df1 df2 names H1 H2) as (frames & Hframes & Hfuzzy).
  assert (name ∈ names) as Hin by by apply elem_of_ambiguous_names.
  exists (combined df1 df2 names (concat frames)), (concat frames).
  split; [|split; [done|split; [done|split]]].
  - rewrite fuzzy_join_eq; [|apply H1|apply H2]. fold names. by rewrite Hfuzzy.
  - apply Forall_forall. intros r Hr Hname.
    apply list_elem_of_filter in Hr as [Hr _]. apply Hr.
    rewrite Hname. by apply list_elem_of_fmap_2.
  - destruct (fuzzy_match_ranked df1 df2 name H1 H2) as (fs & Hfs & Hlen & _).
    rewrite <-Hlen. apply (fuzzy_rows_count df1 df2 name names); try done.
    by apply NoDup_ambiguous_names.
Qed.

Lemma ambiguous_name_records_witness :
  ∃ out fuzzy,
    fuzzy_join remove_dups results standings = Ok out ∧
    fuzzy_results results standings
      (ambiguous_names remove_dups results standings) = Ok fuzzy ∧
    rows out =
      exact_rows results standings
        (ambiguous_names remove_dups results standings) ++ (fuzzy ≫= rows) ∧
    Forall (λ r : row, r !! "Player" ≠ Some (VStr "Bo"))
           (exact_rows results standings
              (ambiguous_names remove_dups results standings)) ∧
    length (filter (λ r : row, r !! "name" = Some (VStr "Bo")) (fuzzy ≫= rows)) =
      (length (rows_named results (VStr "Bo")) `min`
       length (rows_named standings (VStr "Bo")))%nat.
Proof.
  apply (ambiguous_name_records remove_dups results standings (VStr "Bo")).
  - intros l. reflexivity.
  - by apply (bool_decide_unpack _).
  - by apply (bool_decide_unpack _).
  - by apply (bool_decide_unpack _).
  - by apply (bool_decide_unpack _).
  - by apply (bool_decide_unpack _).
  - right. vm_compute. lia.
Defined.

(** *** The exact phase *)

Lemma append_empty (s : string) : s +:+ EmptyString = s.
Proof.
  induction s as [|a s IH]; [done|].
  change (String a (s +:+ EmptyString) = String a s). by rewrite IH.
Qed.

Lemma left_label_id (df2 : DataFrame) (c : string) :
  left_label "Player" no_suffix df2 c = c.
Proof. unfold left_label. case_decide; [apply append_empty|done]. Qed.

Lemma merge_row_labels (df1 df2 : DataFrame) (r1 r2 : row) :
  (((λ c, (left_label "Player" no_suffix df2 c, r1 !! c)) <$> columns df1) ++
   ((λ c, (right_label "_standings" df1 c, r2 !! c)) <$>
      filter (λ c, c ≠ "Player") (columns df2))).*1 =
  merge_columns "Player" no_suffix "_standings" df1 df2.
Proof.
  unfold merge_columns. rewrite fmap_app, <-!list_fmap_compose. done.
Qed.

(** With distinct labels, a row of the standard join has the cells of the
    left row under their own labels and the cells of the right row under
    theirs, suffixed where the label is shared. *)
Lemma merge_row_left (df1 df2 : DataFrame) (r1 r2 : row) (c : string) :
  distinct_labels df1 df2 → c ∈ columns df1 →
  merge_row "Player" no_suffix "_standings" df1 df2 r1 r2 !! c = r1 !! c.
Proof.
  intros Hnd Hc. unfold merge_row. apply row_of_cells_lookup.
  - by rewrite merge_row_labels.
  - apply elem_of_app. left. apply list_elem_of_fmap.
    exists c. by rewrite left_label_id.
Qed.

Lemma merge_row_right (df1 df2 : DataFrame) (r1 r2 : row) (c : string) :
  distinct_labels df1 df2 → c ∈ columns df2 → c ≠ "Player" →
  merge_row "Player" no_suffix "_standings" df1 df2 r1 r2
    !! right_label "_standings" df1 c = r2 !! c.
Proof.
  intros Hnd Hc Hne. unfold merge_row. apply row_of_cells_lookup.
  - by rewrite merge_row_labels.
  - apply elem_of_app. right. apply list_elem_of_fmap.
    exists c. split; [done|]. by apply list_elem_of_filter.
Qed.

Lemma merge_rows_named (df1 df2 : DataFrame) (name : value) :
  distinct_labels df1 df2 → "Player" ∈ columns df1 →
  filter (λ r : row, r !! "Player" = Some name)
         (merge_rows "Player" no_suffix "_standings" df1 df2) =
  rows_named df1 name ≫= λ r1,
    merge_row "Player" no_suffix "_standings" df1 df2 r1 <$> rows_named df2 name.
Proof.
  intros Hnd HP. unfold merge_rows, rows_named.
  induction (rows df1) as [|r1 l IH]; [done|].
  cbn [mbind list_bind]. rewrite filter_app, IH. clear IH.
  rewrite (filter_cons (λ r : row, r !! "Player" = Some name)).
  destruct (decide (r1 !! "Player" = Some name)) as [Hr1|Hr1].
  - cbn [mbind list_bind]. f_equal. rewrite Hr1.
    rewrite (list_filter_iff (λ r2 : row, Some name = r2 !! "Player")
                             (λ r : row, r !! "Player" = Some name))
      by (intros r; split; congruence).
    induction (filter _ (rows df2)) as [|r2 k IH]; [done|].
    cbn [fmap list_fmap]. rewrite filter_cons, decide_True; [by rewrite IH|].
    by rewrite merge_row_left.
  - match goal with |- ?lhs ++ _ = _ => assert (lhs = []) as -> end; [|done].
    induction (filter _ (rows df2)) as [|r2 k IH]; [done|].
    cbn [fmap list_fmap]. rewrite filter_cons, decide_False; [done|].
    by rewrite merge_row_left.
Qed.

Lemma joined_from_no_player (df1 df2 : DataFrame) (x : value)
    (fs : list DataFrame) (v : value) :
  Forall (λ frame, ∃ x, joined_from df1 df2 x frame) fs →
  filter (λ r : row, r !! "Player" = Some v) (fs ≫= rows) = [].
Proof.
  induction 1 as [|frame fs (y & _ & r1 & r2 & _ & _ & Hrows) _ IH]; [done|].
  cbn. rewrite Hrows. cbn [app].
  rewrite filter_cons, decide_False; [done|].
  rewrite joined_cells_only; [done|]. by apply (bool_decide_unpack _).
Qed.


Lemma fuzzy_join_no_player (set_iter : list value → list value)
    (df1 df2 : DataFrame) :
  ¬ ("Player" ∈ columns df1 ∧ "Player" ∈ columns df2) →
  fuzzy_join set_iter df1 df2 = Raise KeyError.
Proof. intros HP. unfold fuzzy_join, pd_merge. by rewrite decide_False. Qed.

Lemma fuzzy_join_Ok (set_iter : list value → list value)
    (df1 df2 out : DataFrame) :
  fuzzy_join set_iter df1 df2 = Ok out →
  "Player" ∈ columns df1 ∧ "Player" ∈ columns df2 ∧
  ∃ fuzzy,
    fuzzy_results df1 df2 (ambiguous_names set_iter df1 df2) = Ok fuzzy ∧
    out = combined df1 df2 (ambiguous_names set_iter df1 df2) fuzzy.
Proof.
  intros Hout.
  destruct (decide ("Player" ∈ columns df1 ∧ "Player" ∈ columns df2))
    as [[HP1 HP2]|HP]; [|by rewrite fuzzy_join_no_player in Hout].
  rewrite fuzzy_join_eq in Hout by done.
  destruct (fuzzy_results df1 df2 _) as [fuzzy|] eqn:Hfuzzy; [|done].
  injection Hout as <-. eauto.
Qed.

(** C4. A name with exactly one row in each table gives exactly one record
    with that name. It comes from the exact phase, and (the labels of the
    standard join being distinct) it has every cell of the row of the first
    table under its own label and every cell of the row of the second table
    under its label, suffixed where the label is shared. *)
Theorem unique_name_exact_record (set_iter : list value → list value)
    (df1 df2 : DataFrame) (name : value) (r1 r2 : row) :
  set_listing set_iter → ranked df1 → ranked df2 → distinct_labels df1 df2 →
  rows_named df1 name = [r1] → rows_named df2 name = [r2] →
  ∃ out fuzzy,
    fuzzy_join set_iter df1 df2 = Ok out ∧
    fuzzy_results df1 df2 (ambiguous_names set_iter df1 df2) = Ok fuzzy ∧
    rows out =
      exact_rows df1 df2 (ambiguous_names set_iter df1 df2) ++ (fuzzy ≫= rows) ∧
    filter (λ r : row, r !! "Player" = Some name) (rows out) =
      [merge_row "Player" no_suffix "_standings" df1 df2 r1 r2] ∧
    filter (λ r : row, r !! "Player" = Some name)
           (exact_rows df1 df2 (ambiguous_names set_iter df1 df2)) =
      [merge_row "Player" no_suffix "_standings" df1 df2 r1 r2] ∧
    filter (λ r : row, r !! "name" = Some name) (fuzzy ≫= rows) = [] ∧
    (∀ c, c ∈ columns df1 →
       merge_row "Player" no_suffix "_standings" df1 df2 r1 r2 !! c = r1 !! c) ∧
    (∀ c, c ∈ columns df2 → c ≠ "Player" →
       merge_row "Player" no_suffix "_standings" df1 df2 r1 r2
         !! right_label "_standings" df1 c = r2 !! c).
Proof.
  intros Hset H1 H2 Hnd Hr1 Hr2.
  set (names := ambiguous_names set_iter df1 df2).
  destruct (fuzzy_results_ranked df1 df2 names H1 H2) as (frames & Hframes & Hfuzzy).
  assert (name ∉ names) as Hnin.
  { unfold names. rewrite elem_of_ambiguous_names by done.
    rewrite Hr1, Hr2. cbn. lia. }
  assert (filter (λ r : row, r !! "Player" = Some name)
                 (exact_rows df1 df2 names) =
          [merge_row "Player" no_suffix "_standings" df1 df2 r1 r2]) as Hexact.
  { unfold exact_rows. rewrite list_filter_filter_l.
    - rewrite merge_rows_named by (done || apply H1). by rewrite Hr1, Hr2.
    - intros r -> Hin. apply Hnin.
      by apply list_elem_of_fmap in Hin as (x & [= ->] & ?). }
  exists (combined df1 df2 names (concat frames)), (concat frames).
  repeat split; try done.
  - rewrite fuzzy_join_eq; [|apply H1|apply H2]. fold names. by rewrite Hfuzzy.
  - cbn. rewrite filter_app, Hexact.
    rewrite (joined_from_no_player df1 df2 name); [done|].
    apply fuzzy_results_frames in Hfuzzy.
    eapply Forall_impl; [exact Hfuzzy|]. intros frame (x & _ & ?). eauto.
  - by apply (fuzzy_rows_absent df1 df2 name names).
  - intros c Hc. by apply merge_row_left.
  - intros c Hc Hne. by apply merge_row_right.
Qed.

Lemma unique_name_exact_record_witness :
  ∃ out fuzzy,
    fuzzy_join remove_dups results standings = Ok out ∧
    fuzzy_results results standings
      (ambiguous_names remove_dups results standings) = Ok fuzzy ∧
    rows out =
      exact_rows results standings
        (ambiguous_names remove_dups results standings) ++ (fuzzy ≫= rows) ∧
    filter (λ r : row, r !! "Player" = Some (VStr "Al")) (rows out) =
      [merge_row "Player" no_suffix "_standings" results standings
         (<["Wins" := VInt 3]> (player "Al" 1))
         (<["Points" := VInt 30]> (player "Al" 2))] ∧
    filter (λ r : row, r !! "Player" = Some (VStr "Al"))
           (exact_rows results standings
              (ambiguous_names remove_dups results standings)) =
      [merge_row "Player" no_suffix "_standings" results standings
         (<["Wins" := VInt 3]> (player "Al" 1))
         (<["Points" := VInt 30]> (player "Al" 2))] ∧
    filter (λ r : row, r !! "name" = Some (VStr "Al")) (fuzzy ≫= rows) = [] ∧
    (∀ c, c ∈ columns results →
       merge_row "Player" no_suffix "_standings" results standings
         (<["Wins" := VInt 3]> (player "Al" 1))
         (<["Points" := VInt 30]> (player "Al" 2)) !! c =
       <["Wins" := VInt 3]> (player "Al" 1) !! c) ∧
    (∀ c, c ∈ columns standings → c ≠ "Player" →
       merge_row "Player" no_suffix "_standings" results standings
         (<["Wins" := VInt 3]> (player "Al" 1))
         (<["Points" := VInt 30]> (player "Al" 2))
         !! right_label "_standings" results c =
       <["Points" := VInt 30]> (player "Al" 2) !! c).
Proof.
  apply (unique_name_exact_record remove_dups results standings (VStr "Al")).
  - intros l. reflexivity.
  - by apply (bool_decide_unpack _).
  - by apply (bool_decide_unpack _).
  - by apply (bool_decide_unpack _).
  - reflexivity.
  - reflexivity.
Defined.

(** C6. On [A = [{Al, 1}, {Al, 5}]] and [B = [{Al, 2}]] the name [Al] is
    ambiguous, the distance matrix is [[1], [3]], the loop matches row 0 of
    [A] (rank 1) with row 0 of [B] (rank 2), and the join returns the single
    record [name = Al, rank_df1 = 1, rank_df2 = 2]: the row of rank 5 is
    dropped. *)
Theorem example_join (set_iter : list value → list value) :
  set_listing set_iter →
  ambiguous_names set_iter tableA tableB = [VStr "Al"] ∧
  distance_matrix tableA tableB (rows_named tableA (VStr "Al"))
                  (rows_named tableB (VStr "Al")) = Ok [[Fin 1]; [Fin 3]] ∧
  matched_pairs tableA tableB (VStr "Al") = Ok [(0%nat, 0%nat)] ∧
  fuzzy_join set_iter tableA tableB =
    Ok {| columns := ["Player"; "Rank"; "Rank_standings";
                      "name"; "rank_df1"; "rank_df2"];
          rows := [ {[ "name" := VStr "Al"; "rank_df1" := VInt 1;
                       "rank_df2" := VInt 2 ]} ] |}.
Proof.
  intros Hset.
  assert (ambiguous_names set_iter tableA tableB = [VStr "Al"]) as Hnames.
  { unfold ambiguous_names. apply Permutation_singleton_r. by rewrite (Hset _). }
  repeat split; [done|].
  rewrite fuzzy_join_eq, Hnames by by apply (bool_decide_unpack _).
  reflexivity.
Qed.

Lemma example_join_witness :
  ambiguous_names remove_dups tableA tableB = [VStr "Al"] ∧
  distance_matrix tableA tableB (rows_named tableA (VStr "Al"))
                  (rows_named tableB (VStr "Al")) = Ok [[Fin 1]; [Fin 3]] ∧
  matched_pairs tableA tableB (VStr "Al") = Ok [(0%nat, 0%nat)] ∧
  fuzzy_join remove_dups tableA tableB =
    Ok {| columns := ["Player"; "Rank"; "Rank_standings";
                      "name"; "rank_df1"; "rank_df2"];
          rows := [ {[ "name" := VStr "Al"; "rank_df1" := VInt 1;
                       "rank_df2" := VInt 2 ]} ] |}.
Proof. apply (example_join remove_dups). intros l. reflexivity. Defined.

Lemma elem_of_merge_rows (df1 df2 : DataFrame) (r : row) :
  r ∈ merge_rows "Player" no_suffix "_standings" df1 df2 →
  ∃ r1 r2, r1 ∈ rows df1 ∧ r2 ∈ rows df2 ∧
           r1 !! "Player" = r2 !! "Player" ∧
           r = merge_row "Player" no_suffix "_standings" df1 df2 r1 r2.
Proof.
  unfold merge_rows. intros (r1 & Hr & Hr1)%list_elem_of_bind.
  apply list_elem_of_fmap in Hr as (r2 & -> & Hr2).
  apply list_elem_of_filter in Hr2 as [Heq Hr2]. by exists r1, r2.
Qed.

(** C7. In the frame the join returns, every record of the fuzzy phase has
    the name and the ranks of the two matched rows and no cell under any
    other label, while every record of the exact phase is the merge of a row
    of each table and (the labels of the standard join being distinct) has
    all the cells of both. *)
Theorem fuzzy_records_ranks_only (set_iter : list value → list value)
    (df1 df2 out : DataFrame) :
  fuzzy_join set_iter df1 df2 = Ok out →
  ∃ fuzzy,
    fuzzy_results df1 df2 (ambiguous_names set_iter df1 df2) = Ok fuzzy ∧
    rows out =
      exact_rows df1 df2 (ambiguous_names set_iter df1 df2) ++ (fuzzy ≫= rows) ∧
    Forall (λ r : row, ∃ x r1 r2,
              x ∈ ambiguous_names set_iter df1 df2 ∧
              r1 ∈ rows_named df1 x ∧ r2 ∈ rows_named df2 x ∧
              r = row_of_cells [("name", Some x);
                                ("rank_df1", r1 !! "Rank");
                                ("rank_df2", r2 !! "Rank")] ∧
              ∀ label, label ∉ ["name"; "rank_df1"; "rank_df2"] →
                       r !! label = None)
           (fuzzy ≫= rows) ∧
    Forall (λ r : row, ∃ r1 r2,
              r1 ∈ rows df1 ∧ r2 ∈ rows df2 ∧
              r = merge_row "Player" no_suffix "_standings" df1 df2 r1 r2 ∧
              (distinct_labels df1 df2 →
               (∀ c, c ∈ columns df1 → r !! c = r1 !! c) ∧
               (∀ c, c ∈ columns df2 → c ≠ "Player" →
                     r !! right_label "_standings" df1 c = r2 !! c)))
           (exact_rows df1 df2 (ambiguous_names set_iter df1 df2)).
Proof.
  intros (HP1 & HP2 & fuzzy & Hfuzzy & ->)%fuzzy_join_Ok.
  exists fuzzy. repeat split; [done| |].
  - apply fuzzy_results_frames in Hfuzzy.
    induction Hfuzzy as [|frame fs (x & Hx & _ & r1 & r2 & Hr1 & Hr2 & Hrows) _ IH];
      [constructor|].
    cbn. rewrite Hrows. constructor; [|done].
    exists x, r1, r2. repeat split; [done..|].
    intros label Hlabel. by apply joined_cells_only.
  - apply Forall_forall. intros r Hr.
    apply list_elem_of_filter in Hr as [_ Hr].
    apply elem_of_merge_rows in Hr as (r1 & r2 & Hr1 & Hr2 & _ & ->).
    exists r1, r2. repeat split; [done..| |].
    + intros c Hc. by apply merge_row_left.
    + intros c Hc Hne. by apply merge_row_right.
Qed.

Lemma fuzzy_records_ranks_only_witness :
  ∃ fuzzy,
    fuzzy_results tableA tableB (ambiguous_names remove_dups tableA tableB) =
      Ok fuzzy ∧
    rows {| columns := ["Player"; "Rank"; "Rank_standings";
                        "name"; "rank_df1"; "rank_df2"];
            rows := [ {[ "name" := VStr "Al"; "rank_df1" := VInt 1;
                         "rank_df2" := VInt 2 ]} ] |} =
      exact_rows tableA tableB (ambiguous_names remove_dups tableA tableB) ++
      (fuzzy ≫= rows) ∧
    Forall (λ r : row, ∃ x r1 r2,
              x ∈ ambiguous_names remove_dups tableA tableB ∧
              r1 ∈ rows_named tableA x ∧ r2 ∈ rows_named tableB x ∧
              r = row_of_cells [("name", Some x);
                                ("rank_df1", r1 !! "Rank");
                                ("rank_df2", r2 !! "Rank")] ∧
              ∀ label, label ∉ ["name"; "rank_df1"; "rank_df2"] →
                       r !! label = None)
           (fuzzy ≫= rows) ∧
    Forall (λ r : row, ∃ r1 r2,
              r1 ∈ rows tableA ∧ r2 ∈ rows tableB ∧
              r = merge_row "Player" no_suffix "_standings" tableA tableB r1 r2 ∧
              (distinct_labels tableA tableB →
               (∀ c, c ∈ columns tableA → r !! c = r1 !! c) ∧
               (∀ c, c ∈ columns tableB → c ≠ "Player" →
                     r !! right_label "_standings" tableA c = r2 !! c)))
           (exact_rows tableA tableB (ambiguous_names remove_dups tableA tableB)).
Proof.
  apply (fuzzy_records_ranks_only remove_dups tableA tableB). reflexivity.
Defined.

(** *** Tables without a rank column *)

Lemma fuzzy_match_unranked (df1 df2 : DataFrame) (name : value) :
  ¬ ("Rank" ∈ columns df1 ∧ "Rank" ∈ columns df2) →
  fuzzy_match df1 df2 name =
  if decide (0 < length (rows_named df1 name) ∧
             0 < length (rows_named df2 name))%nat
  then Raise AttributeError else Ok [].
Proof.
  intros Hrank. case_decide as Hlen.
  - apply fuzzy_match_raise; [done|].
    apply distance_matrix_unranked; [done|apply Hlen..].
  - by apply fuzzy_match_skip.
Qed.

Lemma fuzzy_results_unranked (df1 df2 : DataFrame) (names : list value) :
  ¬ ("Rank" ∈ columns df1 ∧ "Rank" ∈ columns df2) →
  fuzzy_results df1 df2 names =
  if decide (Exists (λ x, 0 < length (rows_named df1 x) ∧
                          0 < length (rows_named df2 x))%nat names)
  then Raise AttributeError else Ok [].
Proof.
  intros Hrank. unfold fuzzy_results.
  induction names as [|x names IH]; cbn.
  - rewrite decide_False; [done|]. by intros ?%Exists_nil.
  - rewrite fuzzy_match_unranked by done.
    destruct (decide (0 < length (rows_named df1 x) ∧
                      0 < length (rows_named df2 x))%nat) as [Hx|Hx]; cbn.
    + rewrite decide_True; [done|]. by left.
    + destruct (mapM (fuzzy_match df1 df2) names) as [frames|e]; cbn in *.
      * case_decide as Hex.
        -- done.
        -- rewrite decide_False; [done|].
           intros [?|?]%Exists_cons; done.
      * case_decide as Hex; [|done]. injection IH as ->.
        rewrite decide_True; [done|]. by right.
Qed.

(** C8, as stated, fails: two tables without a rank column, no name
    repeated, are joined without any error. *)
Lemma join_without_rank_returns :
  ("Rank" ∉ columns (names_only ["Al"; "Bo"])) ∧
  ("Rank" ∉ columns (names_only ["Bo"])) ∧
  fuzzy_join remove_dups (names_only ["Al"; "Bo"]) (names_only ["Bo"]) =
    Ok {| columns := ["Player"]; rows := [ {[ "Player" := VStr "Bo" ]} ] |} ∧
  ¬ ∃ e, fuzzy_join remove_dups (names_only ["Al"; "Bo"]) (names_only ["Bo"]) =
         Raise e.
Proof.
  split; [by apply (bool_decide_unpack _)|].
  split; [by apply (bool_decide_unpack _)|].
  split; [reflexivity|]. by intros [e [=]].
Qed.

(** C8 (amended). Without a name column in either table the join fails
    with [KeyError] at its first step, whatever the rows. On tables with the
    name column, string names and distinct joined labels, a missing rank
    column makes the join fail, with [AttributeError], exactly when some
    ambiguous name has rows in both tables; otherwise the join returns the
    exact phase. *)
Theorem missing_columns (set_iter : list value → list value)
    (df1 df2 : DataFrame) :
  set_listing set_iter →
  (¬ ("Player" ∈ columns df1 ∧ "Player" ∈ columns df2) →
   fuzzy_join set_iter df1 df2 = Raise KeyError) ∧
  ("Player" ∈ columns df1 → "Player" ∈ columns df2 →
   distinct_labels df1 df2 → string_names df1 → string_names df2 →
   ¬ ("Rank" ∈ columns df1 ∧ "Rank" ∈ columns df2) →
   ((∃ name, (1 < length (rows_named df1 name) ∨
              1 < length (rows_named df2 name)) ∧
             0 < length (rows_named df1 name) ∧
             0 < length (rows_named df2 name))%nat →
    fuzzy_join set_iter df1 df2 = Raise AttributeError) ∧
   ((∀ name, (1 < length (rows_named df1 name) ∨
              1 < length (rows_named df2 name))%nat →
             ¬ (0 < length (rows_named df1 name) ∧
                0 < length (rows_named df2 name))%nat) →
    fuzzy_join set_iter df1 df2 =
      Ok (combined df1 df2 (ambiguous_names set_iter df1 df2) []))).
Proof.
  intros Hset. split; [apply fuzzy_join_no_player|].
  intros HP1 HP2 _ _ _ Hrank.
  rewrite fuzzy_join_eq, fuzzy_results_unranked by done. split.
  - intros (name & Hamb & Hlen). rewrite decide_True; [done|].
    apply Exists_exists. exists name. split; [|done].
    by apply elem_of_ambiguous_names.
  - intros Hnone. rewrite decide_False; [done|].
    intros (name & Hin & Hlen)%Exists_exists.
    apply elem_of_ambiguous_names in Hin; [|done]. by apply (Hnone name).
Qed.


Lemma missing_columns_witness :
  (¬ ("Player" ∈ columns (names_only ["Al"; "Al"]) ∧
      "Player" ∈ columns (names_only ["Al"])) →
   fuzzy_join remove_dups (names_only ["Al"; "Al"]) (names_only ["Al"]) =
     Raise KeyError) ∧
  ("Player" ∈ columns (names_only ["Al"; "Al"]) →
   "Player" ∈ columns (names_only ["Al"]) →
   distinct_labels (names_only ["Al"; "Al"]) (names_only ["Al"]) →
   string_names (names_only ["Al"; "Al"]) → string_names (names_only ["Al"]) →
   ¬ ("Rank" ∈ columns (names_only ["Al"; "Al"]) ∧
      "Rank" ∈ columns (names_only ["Al"])) →
   ((∃ name, (1 < length (rows_named (names_only ["Al"; "Al"]) name) ∨
              1 < length (rows_named (names_only ["Al"]) name)) ∧
             0 < length (rows_named (names_only ["Al"; "Al"]) name) ∧
             0 < length (rows_named (names_only ["Al"]) name))%nat →
    fuzzy_join remove_dups (names_only ["Al"; "Al"]) (names_only ["Al"]) =
      Raise AttributeError) ∧
   ((∀ name, (1 < length (rows_named (names_only ["Al"; "Al"]) name) ∨
              1 < length (rows_named (names_only ["Al"]) name))%nat →
             ¬ (0 < length (rows_named (names_only ["Al"; "Al"]) name) ∧
                0 < length (rows_named (names_only ["Al"]) name))%nat) →
    fuzzy_join remove_dups (names_only ["Al"; "Al"]) (names_only ["Al"]) =
      Ok (combined (names_only ["Al"; "Al"]) (names_only ["Al"])
            (ambiguous_names remove_dups (names_only ["Al"; "Al"])
               (names_only ["Al"])) []))).
Proof.
  apply (missing_columns remove_dups (names_only ["Al"; "Al"]) (names_only ["Al"])).
  intros l. reflexivity.
Defined.

(** *** The plain inner join *)

Lemma merge_rows_list_prod (df1 df2 : DataFrame) :
  merge_rows "Player" no_suffix "_standings" df1 df2 =
  (λ p, merge_row "Player" no_suffix "_standings" df1 df2 p.1 p.2) <$>
    filter (λ p, p.1 !! "Player" = p.2 !! "Player")
           (list_prod (rows df1) (rows df2)).
Proof.
  unfold merge_rows. induction (rows df1) as [|r1 l IH]; [done|].
  cbn [mbind list_bind list_prod]. rewrite filter_app, fmap_app, <-IH.
  f_equal. clear IH.
  induction (rows df2) as [|r2 k IH]; [done|].
  cbn [map]. rewrite (filter_cons (λ r2 : row, r1 !! "Player" = r2 !! "Player")).
  rewrite (filter_cons (λ p : row * row, p.1 !! "Player" = p.2 !! "Player")).
  cbn [fst snd].
  destruct (decide (r1 !! "Player" = r2 !! "Player")); [|done].
  cbn [fmap list_fmap]. by rewrite IH.
Qed.

Lemma pd_merge_inner_join (df1 df2 : DataFrame) :
  pd_merge df1 df2 "Player" no_suffix "_standings" = inner_join df1 df2.
Proof.
  unfold pd_merge, inner_join. case_decide; [|done].
  by rewrite merge_rows_list_prod.
Qed.

(** C10. When no name occurs more than once in either table, the join is
    the plain inner join on the name: the fuzzy phase adds nothing and the
    exact phase removes nothing. *)
Theorem no_duplicates_inner_join (set_iter : list value → list value)
    (df1 df2 : DataFrame) :
  set_listing set_iter →
  (∀ name, length (rows_named df1 name) ≤ 1)%nat →
  (∀ name, length (rows_named df2 name) ≤ 1)%nat →
  fuzzy_join set_iter df1 df2 = inner_join df1 df2 ∧
  fuzzy_join set_iter df1 df2 = pd_merge df1 df2 "Player" no_suffix "_standings".
Proof.
  intros Hset H1 H2. rewrite pd_merge_inner_join.
  enough (fuzzy_join set_iter df1 df2 = inner_join df1 df2) by done.
  destruct (decide ("Player" ∈ columns df1 ∧ "Player" ∈ columns df2))
    as [[HP1 HP2]|HP].
  - assert (ambiguous_names set_iter df1 df2 = []) as Hnames.
    { apply elem_of_nil_inv. intros name.
      rewrite elem_of_ambiguous_names by done.
      specialize (H1 name). specialize (H2 name). lia. }
    rewrite fuzzy_join_eq, Hnames by done.
    rewrite <-pd_merge_inner_join. unfold pd_merge.
    rewrite decide_True by done. cbn. unfold combined, exact_rows. cbn.
    f_equal. f_equal. rewrite app_nil_r.
    induction (merge_rows _ _ _ _ _) as [|r l IH]; [done|].
    rewrite filter_cons, decide_True; [by rewrite IH|]. apply not_elem_of_nil.
  - rewrite fuzzy_join_no_player by done.
    unfold inner_join. by rewrite decide_False.
Qed.

Lemma no_duplicates_inner_join_witness :
  fuzzy_join remove_dups (names_only ["Al"; "Bo"]) (names_only ["Bo"; "Cy"]) =
    inner_join (names_only ["Al"; "Bo"]) (names_only ["Bo"; "Cy"]) ∧
  fuzzy_join remove_dups (names_only ["Al"; "Bo"]) (names_only ["Bo"; "Cy"]) =
    pd_merge (names_only ["Al"; "Bo"]) (names_only ["Bo"; "Cy"])
      "Player" no_suffix "_standings".
Proof.
  apply (no_duplicates_inner_join remove_dups).
  - intros l. reflexivity.
  - intros name. unfold rows_named. cbn [rows names_only fmap list_fmap].
    rewrite !filter_cons, filter_nil.
    repeat case_decide; simplify_map_eq; cbn; lia.
  - intros name. unfold rows_named. cbn [rows names_only fmap list_fmap].
    rewrite !filter_cons, filter_nil.
    repeat case_decide; simplify_map_eq; cbn; lia.
Defined.

(** *** Independence of the set order *)

Lemma distance_matrix_shape (df1 df2 : DataFrame) (l1 l2 : list row)
    (d : list (list distance)) :
  distance_matrix df1 df2 l1 l2 = Ok d → has_shape d (length l1, length l2).
Proof.
  intros Hd. apply mapM_result_Ok_inv in Hd. split; cbn.
  - symmetry. by eapply Forall2_length.
  - induction Hd as [|r1 r l1 d Hr _ IH]; constructor; [|done].
    apply mapM_result_Ok_inv in Hr. symmetry. by eapply Forall2_length.
Qed.

(** The only exception of a turn of the loop is the one of the distance
    computation. *)
Lemma fuzzy_match_error (df1 df2 : DataFrame) (name : value) (e : exn) :
  "Player" ∈ columns df1 →
  fuzzy_match df1 df2 name = Raise e → e = rank_error df1 df2.
Proof.
  intros HP He.
  destruct (decide (0 < length (rows_named df1 name) ∧
                    0 < length (rows_named df2 name))%nat) as [Hlen|Hlen];
    [|by rewrite fuzzy_match_skip in He].
  destruct (distance_matrix df1 df2 (rows_named df1 name) (rows_named df2 name))
    as [d|e'] eqn:Hd.
  - destruct (decide ("Rank" ∈ columns df1 ∧ "Rank" ∈ columns df2))
      as [[HR1 HR2]|HR].
    + destruct (fuzzy_match_pairs df1 df2 name d) as (frames & Hframes & _);
        [done|done|done|done|done|by eapply distance_matrix_shape|congruence].
    + rewrite distance_matrix_unranked in Hd; [done|done|apply Hlen..].
  - rewrite (fuzzy_match_raise df1 df2 name e') in He by done.
    injection He as <-. by eapply distance_matrix_raise.
Qed.

Lemma fuzzy_results_frames_of (df1 df2 : DataFrame) (names : list value)
    (fuzzy : list DataFrame) :
  fuzzy_results df1 df2 names = Ok fuzzy → fuzzy = names ≫= frames_of df1 df2.
Proof.
  intros (frames & Hm & ->)%fuzzy_results_Ok.
  induction Hm as [|x fs names frames Hx _ IH]; [done|].
  cbn. unfold frames_of at 1. by rewrite Hx, IH.
Qed.

Lemma fuzzy_results_all_Ok (df1 df2 : DataFrame) (names : list value)
    (fuzzy : list DataFrame) :
  fuzzy_results df1 df2 names = Ok fuzzy →
  ∀ x, x ∈ names → ∃ fs, fuzzy_match df1 df2 x = Ok fs.
Proof.
  intros (frames & Hm & _)%fuzzy_results_Ok.
  induction Hm as [|y fs names frames Hy _ IH]; intros x Hx.
  - by apply elem_of_nil in Hx.
  - apply elem_of_cons in Hx as [->|Hx]; eauto.
Qed.

Lemma fuzzy_results_permutation (df1 df2 : DataFrame) (names1 names2 : list value) :
  "Player" ∈ columns df1 → names1 ≡ₚ names2 →
  match fuzzy_results df1 df2 names1, fuzzy_results df1 df2 names2 with
  | Ok fuzzy1, Ok fuzzy2 => fuzzy1 ≡ₚ fuzzy2
  | Raise e1, Raise e2 => e1 = e2
  | _, _ => False
  end.
Proof.
  intros HP Hperm.
  destruct (fuzzy_results df1 df2 names1) as [fuzzy1|e1] eqn:H1,
           (fuzzy_results df1 df2 names2) as [fuzzy2|e2] eqn:H2.
  - apply fuzzy_results_frames_of in H1 as ->, H2 as ->. by rewrite Hperm.
  - apply fuzzy_results_Raise in H2 as (x & Hx & He).
    rewrite <-Hperm in Hx.
    destruct (fuzzy_results_all_Ok _ _ _ _ H1 x Hx) as [fs Hfs]. congruence.
  - apply fuzzy_results_Raise in H1 as (x & Hx & He).
    rewrite Hperm in Hx.
    destruct (fuzzy_results_all_Ok _ _ _ _ H2 x Hx) as [fs Hfs]. congruence.
  - apply fuzzy_results_Raise in H1 as (x1 & _ & He1).
    apply fuzzy_results_Raise in H2 as (x2 & _ & He2).
    apply fuzzy_match_error in He1, He2; congruence.
Qed.

(** C9. Two runs on the same tables, whatever order the two runs iterate
    the set of ambiguous names in, end alike: with the same exception, or
    with frames that have the same labels and the same records up to their
    order. The pairs matched for a name do not depend on the run, and a tie
    in the minimal distance goes to the first entry of the row-major scan:
    the entry [argmin] picks is beaten by none and beats all before it. *)
Theorem join_deterministic (set_iter1 set_iter2 : list value → list value)
    (df1 df2 : DataFrame) :
  set_listing set_iter1 → set_listing set_iter2 →
  match fuzzy_join set_iter1 df1 df2, fuzzy_join set_iter2 df1 df2 with
  | Ok out1, Ok out2 => columns out1 = columns out2 ∧ rows out1 ≡ₚ rows out2
  | Raise e1, Raise e2 => e1 = e2
  | _, _ => False
  end ∧
  (∀ xs i, argmin xs = Ok i →
     ∃ b, xs !! i = Some b ∧
          (∀ j y, xs !! j = Some y → beats y b = false) ∧
          (∀ j y, (j < i)%nat → xs !! j = Some y → beats b y = true)).
Proof.
  intros Hset1 Hset2. split; [|apply argmin_first].
  destruct (decide ("Player" ∈ columns df1 ∧ "Player" ∈ columns df2))
    as [[HP1 HP2]|HP]; [|by rewrite !fuzzy_join_no_player].
  rewrite !fuzzy_join_eq by done.
  assert (ambiguous_names set_iter1 df1 df2 ≡ₚ ambiguous_names set_iter2 df1 df2)
    as Hperm.
  { unfold ambiguous_names. by rewrite (Hset1 _), (Hset2 _). }
  assert (exact_rows df1 df2 (ambiguous_names set_iter1 df1 df2) =
          exact_rows df1 df2 (ambiguous_names set_iter2 df1 df2)) as Hexact.
  { unfold exact_rows. apply list_filter_iff. intros r. by rewrite Hperm. }
  pose proof (fuzzy_results_permutation df1 df2 _ _ HP1 Hperm) as Hfuzzy.
  destruct (fuzzy_results df1 df2 (ambiguous_names set_iter1 df1 df2))
    as [fuzzy1|e1],
    (fuzzy_results df1 df2 (ambiguous_names set_iter2 df1 df2))
    as [fuzzy2|e2]; cbn; try done.
  split.
  - destruct (decide (fuzzy1 ≠ [])) as [Hne|Hnil].
    + rewrite decide_True; [done|].
      intros ->. by apply Permutation_nil_r in Hfuzzy.
    + apply dec_stable in Hnil as ->. apply Permutation_nil_l in Hfuzzy as <-.
      done.
  - by rewrite Hexact, Hfuzzy.
Qed.

Lemma join_deterministic_witness :
  match fuzzy_join remove_dups results standings,
        fuzzy_join reverse_dups results standings with
  | Ok out1, Ok out2 => columns out1 = columns out2 ∧ rows out1 ≡ₚ rows out2
  | Raise e1, Raise e2 => e1 = e2
  | _, _ => False
  end ∧
  (∀ xs i, argmin xs = Ok i →
     ∃ b, xs !! i = Some b ∧
          (∀ j y, xs !! j = Some y → beats y b = false) ∧
          (∀ j y, (j < i)%nat → xs !! j = Some y → beats b y = true)).
Proof.
  apply (join_deterministic remove_dups reverse_dups results standings).
  - intros l. reflexivity.
  - intros l. unfold reverse_dups. apply reverse_Permutation.
Defined.

End FuzzyJoinFacts.

(** ** The sparse column profiler: further properties *)

Module SparseProfileMore.
Import SparseProfile SparseProfileFacts SparseDense.

Lemma occurrences_nil (v : Z) : occurrences v [] = 0.
Proof. done. Qed.

Lemma occurrences_app (v : Z) (xs ys : list Z) :
  occurrences v (xs ++ ys) = occurrences v xs + occurrences v ys.
Proof. unfold occurrences. rewrite filter_app, length_app. lia. Qed.

Lemma occurrences_le_length (v : Z) (xs : list Z) :
  0 ≤ occurrences v xs ≤ Z.of_nat (length xs).
Proof. unfold occurrences. pose proof (length_filter (λ x, x = v) xs). lia. Qed.

Lemma occurrences_elem (v : Z) (xs : list Z) : v ∈ xs → 0 < occurrences v xs.
Proof.
  induction 1 as [x xs|x y xs _ IH]; rewrite occurrences_cons.
  - rewrite decide_True by done. pose proof (occurrences_le_length x xs). lia.
  - destruct (decide (y = x)); lia.
Qed.

Lemma occurrences_replicate (v : Z) (n : nat) (x : Z) :
  occurrences v (replicate n x) = if decide (x = v) then Z.of_nat n else 0.
Proof.
  induction n as [|n IH]; [by destruct (decide (x = v))|].
  cbn [replicate]. rewrite occurrences_cons, IH.
  destruct (decide (x = v)); lia.
Qed.

(** Changing one cell changes the count of [v] by that cell alone. *)
Lemma occurrences_alter (v : Z) (f : Z → Z) (col : list Z) (i : nat) (x : Z) :
  col !! i = Some x →
  occurrences v (alter f i col) =
  occurrences v col - (if decide (x = v) then 1 else 0)
                    + (if decide (f x = v) then 1 else 0).
Proof.
  intros Hi. pose proof (lookup_lt_Some _ _ _ Hi) as Hlt.
  rewrite <-(take_drop_middle col i x Hi) at 1 2.
  rewrite alter_app_r_alt by (rewrite length_take; lia).
  rewrite length_take, Nat.min_l, Nat.sub_diag by lia. cbn [alter list_alter].
  rewrite !occurrences_app, !occurrences_cons. lia.
Qed.

(** The dense column has, for every value, as many cells as the zero cells
    not written to plus the stored entries account for. *)
Lemma occurrences_scatter_from (v : Z) (entries : list (nat * Z)) (col : list Z) :
  NoDup entries.*1 →
  Forall (λ i, col !! i = Some 0) entries.*1 →
  occurrences v
    (foldl (λ col e, alter (Z.add e.2) e.1 col) col entries) =
  occurrences v col
  - (if decide (v = 0) then Z.of_nat (length entries) else 0)
  + occurrences v entries.*2.
Proof.
  revert col. induction entries as [|[i x] entries IH]; intros col Hnd Hzero.
  - cbn. rewrite occurrences_nil. destruct (decide (v = 0)); lia.
  - cbn in Hnd, Hzero. apply NoDup_cons in Hnd as [Hi Hnd].
    apply Forall_cons in Hzero as [Hcol Hzero].
    cbn [foldl fmap list_fmap snd fst length]. rewrite IH; [|done|].
    + rewrite (occurrences_alter v _ col i 0 Hcol), occurrences_cons.
      rewrite Z.add_0_r.
      destruct (decide (0 = v)), (decide (v = 0)), (decide (x = v)); lia.
    + rewrite Forall_forall in *. intros j Hj.
      rewrite list_lookup_alter_ne by (intros ->; done). auto.
Qed.

Lemma occurrences_scatter (v : Z) (n : nat) (entries : list (nat * Z)) :
  NoDup entries.*1 → Forall (λ i, i < n)%nat entries.*1 →
  occurrences v (scatter n entries) =
  (if decide (v = 0) then Z.of_nat n - Z.of_nat (length entries) else 0)
  + occurrences v entries.*2.
Proof.
  intros Hnd Hlt. unfold scatter. rewrite occurrences_scatter_from; [|done|].
  - rewrite occurrences_replicate.
    destruct (decide (0 = v)), (decide (v = 0)); lia.
  - eapply Forall_impl; [exact Hlt|]. intros i Hi.
    by apply lookup_replicate_2.
Qed.

Lemma length_scatter (n : nat) (entries : list (nat * Z)) :
  length (scatter n entries) = n.
Proof.
  unfold scatter. rewrite <-(length_replicate n 0) at 2.
  generalize (replicate n 0). induction entries as [|en ens IH]; [done|].
  intros col. cbn. by rewrite IH, length_alter.
Qed.

Lemma column_entries_eq (X : sparse_matrix) (j s e : nat) :
  indptr (csc X) !! j = Some s → indptr (csc X) !! S j = Some e →
  column_entries X j =
  Ok (zip (slice (indices X) s e) (slice (data (csc X)) s e)).
Proof.
  intros Hs He. unfold column_entries, getitem.
  replace (j + 1)%nat with (S j) by lia. by rewrite Hs, He.
Qed.

(** The value of every bucket, read off [Counter] and the zero step. *)
Lemma column_counter_lookup (M : csc_matrix) (j : nat) (xs : list Z)
    (c : gmap Z Z) (v : Z) :
  column_data M j = Ok xs → column_counter M j = Ok c → v ≠ 0 →
  c !! v = if decide (v ∈ xs) then Some (occurrences v xs) else None.
Proof.
  unfold column_data, column_counter.
  destruct (getitem (indptr M) j) as [s|]; cbn; [|done].
  destruct (getitem (indptr M) (j + 1)) as [e|]; cbn; [|done].
  intros [= <-] [= <-] Hv.
  case_decide; [rewrite lookup_insert_ne by done|]; apply Counter_lookup.
Qed.


Lemma column_counter_bounds (M : csc_matrix) (j : nat) (c : gmap Z Z) (v n : Z) :
  canonical M → (j < (shape M).2)%nat →
  column_counter M j = Ok c → c !! v = Some n →
  0 < n ≤ Z.of_nat (shape M).1.
Proof.
  intros HM Hj Hc Hn.
  destruct (canonical_column M j HM Hj) as (s & e & Hs & He & Hse & Hrows).
  destruct (column_counter_eq M j s e Hs He) as [Hc' _].
  rewrite Hc' in Hc. injection Hc as <-. cbv zeta in Hn.
  assert (∀ w m, Counter (slice (data M) s e) !! w = Some m →
                 0 < m ≤ Z.of_nat (shape M).1) as Hcounter.
  { intros w m. rewrite Counter_lookup.
    destruct (decide (w ∈ slice (data M) s e)) as [Hin|]; [|done].
    intros [= <-]. apply occurrences_elem in Hin.
    pose proof (occurrences_le_length w (slice (data M) s e)) as Hle.
    rewrite (length_slice _ _ _ Hse) in Hle. lia. }
  case_decide; [|by eauto].
  rewrite lookup_insert in Hn. case_decide; [|by eauto].
  injection Hn as <-. lia.
Qed.

Lemma column_profile_canonical (M : csc_matrix) (normalize : bool) (j : nat) :
  canonical M → (j < (shape M).2)%nat →
  ∃ p, column_profile M normalize j = Ok p.
Proof.
  intros HM Hj.
  destruct (canonical_column M j HM Hj) as (s & e & Hs & He & Hse & Hrows).
  destruct (column_counter_eq M j s e Hs He) as [Hc _].
  unfold column_profile. rewrite Hc. cbn. destruct normalize; [|by eauto].
  destruct (decide ((shape M).1 = 0%nat)) as [Hzero|Hpos].
  - assert (e = s) as -> by lia.
    unfold slice. rewrite Nat.sub_diag, take_0, Counter_nil.
    rewrite decide_False by lia. rewrite dict_comp_empty. by eauto.
  - rewrite (dict_comp_total _
      (λ v, inject_Z v / inject_Z (Z.of_nat (shape M).1))%Q); [by eauto|].
    intros v. unfold truediv. rewrite decide_False; [done|lia].
Qed.

Lemma value_counts_lookup (M : csc_matrix) (normalize : bool)
    (ps : list profile) (j : nat) (p : profile) :
  sparse_column_value_counts M normalize = Ok ps → ps !! j = Some p →
  (j < (shape M).2)%nat ∧ column_profile M normalize j = Ok p.
Proof.
  intros Hps Hp. apply mapM_result_Ok_inv in Hps.
  destruct (Forall2_lookup_r _ _ _ _ _ Hps Hp) as (i & Hi & Hcol).
  apply lookup_seq in Hi as [-> Hlt]. by rewrite Nat.add_0_l in *.
Qed.

Lemma mapM_result_fmap {A B C} (f : A → result B) (h : B → C) (l : list A) :
  mapM (λ x, h <$> f x) l = fmap (M := result) (fmap (M := list) h) (mapM f l).
Proof.
  induction l as [|x l IH]; [done|]. cbn.
  destruct (f x) as [y|e]; cbn; [|done]. rewrite IH.
  by destruct (mapM f l).
Qed.

(** X1. On a canonical matrix the profiler raises nothing, with either
    setting of [normalize]: it returns one profile per column, the profile at
    position [j] being that of column [j]. *)
Theorem one_profile_per_column (M : csc_matrix) (normalize : bool) :
  canonical M →
  ∃ ps, sparse_column_value_counts M normalize = Ok ps ∧
        length ps = (shape M).2 ∧
        ∀ j p, ps !! j = Some p → column_profile M normalize j = Ok p.
Proof.
  intros HM.
  destruct (value_counts_nth M normalize (λ _, True)) as (ps & Hps & Hlen & _).
  - intros j Hj. destruct (column_profile_canonical M normalize j HM Hj); eauto.
  - exists ps. repeat split; [done..|].
    intros j p Hp. by eapply value_counts_lookup.
Qed.

Lemma one_profile_per_column_witness :
  ∃ ps, sparse_column_value_counts small_matrix true = Ok ps ∧
        length ps = 2%nat ∧
        ∀ j p, ps !! j = Some p → column_profile small_matrix true j = Ok p.
Proof.
  apply (one_profile_per_column small_matrix true).
  split; [reflexivity|].
  intros [|[|[|j]]] s e; cbn; intros Hs He; simplify_eq; cbn; lia.
Defined.

(** X2. In the counts of a column, a value other than zero has a bucket
    exactly when the column stores it, and the bucket holds the number of
    stored entries with that value. *)
Theorem nonzero_buckets_exact (M : csc_matrix) (ps : list profile) (j : nat)
    (c : gmap Z Z) (xs : list Z) (v : Z) :
  sparse_column_value_counts M false = Ok ps → ps !! j = Some (Counts c) →
  column_data M j = Ok xs → v ≠ 0 →
  c !! v = if decide (v ∈ xs) then Some (occurrences v xs) else None.
Proof.
  intros Hps Hp Hxs Hv.
  destruct (value_counts_lookup M false ps j _ Hps Hp) as [_ Hcol].
  unfold column_profile in Hcol.
  destruct (column_counter M j) as [c'|] eqn:Hc; [|done].
  injection Hcol as ->. by eapply column_counter_lookup.
Qed.

Lemma nonzero_buckets_exact_witness :
  ({[0 := 1; 1 := 2]} : gmap Z Z) !! 1 =
  if decide (1 ∈ [1; 1]) then Some (occurrences 1 [1; 1]) else None.
Proof.
  apply (nonzero_buckets_exact small_matrix
           [Counts {[0 := 2; 4 := 1]}; Counts {[0 := 1; 1 := 2]}] 1);
    [reflexivity|reflexivity|reflexivity|lia].
Defined.

Lemma mapM_result_ext {A B} (f g : A → result B) (l : list A) :
  (∀ x, f x = g x) → mapM f l = mapM g l.
Proof.
  intros Hfg. induction l as [|x l IH]; [done|]. cbn. by rewrite Hfg, IH.
Qed.

Lemma column_profile_frequencies (M : csc_matrix) (j : nat) :
  (0 < (shape M).1)%nat →
  column_profile M true j =
  frequencies (Z.of_nat (shape M).1) <$> column_profile M false j.
Proof.
  intros Hrows. unfold column_profile.
  destruct (column_counter M j) as [c|]; cbn; [|done].
  rewrite (dict_comp_total _
    (λ v, inject_Z v / inject_Z (Z.of_nat (shape M).1))%Q); [done|].
  intros v. unfold truediv. rewrite decide_False; [done|lia].
Qed.

(** X3. With at least one row, [normalize=True] returns what
    [normalize=False] returns with every count divided by the row count: the
    same buckets, and the same exception if there is one. *)
Theorem normalize_divides_counts (M : csc_matrix) :
  (0 < (shape M).1)%nat →
  sparse_column_value_counts M true =
  fmap (M := result) (fmap (M := list) (frequencies (Z.of_nat (shape M).1)))
       (sparse_column_value_counts M false).
Proof.
  intros Hrows. unfold sparse_column_value_counts.
  rewrite <-(mapM_result_fmap (column_profile M false)).
  apply mapM_result_ext. intros j. by apply column_profile_frequencies.
Qed.

Lemma normalize_divides_counts_witness :
  sparse_column_value_counts small_matrix true =
  fmap (M := result) (fmap (M := list) (frequencies (Z.of_nat 3)))
       (sparse_column_value_counts small_matrix false).
Proof. apply (normalize_divides_counts small_matrix). cbn. lia. Defined.

(** X4. On a canonical matrix with at least one row, every frequency of a
    normalized profile lies in (0, 1]: no bucket is empty and none exceeds
    the rows. *)
Theorem frequencies_in_unit_interval (M : csc_matrix) (ps : list profile)
    (j : nat) (f : gmap Z Q) (v : Z) (q : Q) :
  canonical M → (0 < (shape M).1)%nat →
  sparse_column_value_counts M true = Ok ps → ps !! j = Some (Freqs f) →
  f !! v = Some q → (0 < q ∧ q <= 1)%Q.
Proof.
  intros HM Hrows Hps Hp Hq.
  destruct (value_counts_lookup M true ps j _ Hps Hp) as [Hj Hcol].
  rewrite column_profile_frequencies in Hcol by done.
  unfold column_profile in Hcol.
  destruct (column_counter M j) as [c|] eqn:Hc; [|done].
  cbn in Hcol. injection Hcol as <-.
  rewrite lookup_fmap in Hq.
  destruct (c !! v) as [n|] eqn:Hn; [|done]. injection Hq as <-.
  destruct (column_counter_bounds M j c v n HM Hj Hc Hn) as [Hpos Hle].
  assert (0 < inject_Z (Z.of_nat (shape M).1))%Q as HN.
  { change 0%Q with (inject_Z 0). rewrite <-Zlt_Qlt. lia. }
  split.
  - apply Qlt_shift_div_l; [done|]. rewrite Qmult_0_l.
    change 0%Q with (inject_Z 0). rewrite <-Zlt_Qlt. lia.
  - apply Qle_shift_div_r; [done|]. rewrite Qmult_1_l.
    rewrite <-Zle_Qle. lia.
Qed.

Lemma frequencies_in_unit_interval_witness :
  (0 < 2 # 3 ∧ 2 # 3 <= 1)%Q.
Proof.
  apply (frequencies_in_unit_interval small_matrix
           [Freqs {[0 := 2 # 3; 4 := 1 # 3]}; Freqs {[0 := 1 # 3; 1 := 2 # 3]}]
           1 {[0 := 1 # 3; 1 := 2 # 3]} 1 (2 # 3)).
  - split; [reflexivity|].
    intros [|[|[|j]]] s e; cbn; intros Hs He; simplify_eq; cbn; lia.
  - cbn. lia.
  - reflexivity.
  - reflexivity.
  - reflexivity.
Defined.

(** X5. For a canonical matrix whose row indices are within the rows and
    distinct in every column, and a column that stores no zero, the counts of
    the column agree with its dense form: the bucket of every value holds the
    number of cells of the dense column with that value (0 standing for a
    missing bucket). *)
Theorem counts_agree_with_dense_column (X : sparse_matrix)
    (ps : list profile) (j : nat) (p : profile) :
  canonical (csc X) → indexed X →
  (∀ xs, column_data (csc X) j = Ok xs → 0 ∉ xs) →
  sparse_column_value_counts (csc X) false = Ok ps → ps !! j = Some p →
  ∃ c cells,
    p = Counts c ∧ dense_column X j = Ok cells ∧
    length cells = (shape (csc X)).1 ∧
    ∀ v, default 0 (c !! v) = occurrences v cells.
Proof.
  intros HM [Hlen HX] Hzero Hps Hp.
  destruct (value_counts_lookup _ false ps j _ Hps Hp) as [Hj Hcol].
  destruct (canonical_column _ j HM Hj) as (s & e & Hs & He & Hse & Hrows).
  destruct (column_counter_eq _ j s e Hs He) as [Hc Hd].
  pose proof (column_entries_eq X j s e Hs He) as Hentries.
  destruct (HX j _ Hentries) as [Hnd Hlt].
  unfold column_profile in Hcol. rewrite Hc in Hcol. injection Hcol as <-.
  assert (length (slice (indices X) s e) =
          length (slice (data (csc X)) s e)) as Hslices.
  { rewrite !length_slice; [done|lia..]. }
  rewrite fst_zip in Hnd, Hlt by lia.
  eexists _, _. split; [done|]. split.
  { unfold dense_column. by rewrite Hentries. }
  split.
  { apply length_scatter. }
  intros v. rewrite occurrences_scatter by (by rewrite fst_zip by lia).
  rewrite snd_zip, length_zip, Hslices, Nat.min_id by lia.
  rewrite (length_slice _ _ _ Hse). cbv zeta.
  specialize (Hzero _ Hd).
  set (xs := slice (data (csc X)) s e) in *.
  set (zeros_count := Z.of_nat (shape (csc X)).1 - (Z.of_nat e - Z.of_nat s)).
  clear Hp Hc.
  destruct (decide (v = 0)) as [->|Hv].
  - rewrite zero_step_lookup. unfold explicit_zeros.
    rewrite (occurrences_not_elem 0 xs Hzero).
    rewrite (decide_False (P := 0 ∈ xs)) by done.
    destruct (decide (0 < zeros_count)); cbn; lia.
  - assert ((if decide (0 < zeros_count)
             then <[0 := zeros_count]> (Counter xs) else Counter xs) !! v =
            Counter xs !! v) as ->.
    { destruct (decide (0 < zeros_count)); [|done].
      by rewrite lookup_insert_ne. }
    rewrite Counter_lookup.
    destruct (decide (v ∈ xs)) as [Hin|Hnin]; cbn; [lia|].
    rewrite (occurrences_not_elem v xs Hnin). lia.
Qed.


Lemma counts_agree_with_dense_column_witness :
  ∃ c cells,
    Counts {[0 := 1; 1 := 2]} = Counts c ∧
    dense_column small_sparse 1 = Ok cells ∧
    length cells = 3%nat ∧
    ∀ v, default 0 (c !! v) = occurrences v cells.
Proof.
  apply (counts_agree_with_dense_column small_sparse
           [Counts {[0 := 2; 4 := 1]}; Counts {[0 := 1; 1 := 2]}] 1).
  - split; [reflexivity|].
    intros [|[|[|j]]] s e; cbn; intros Hs He; simplify_eq; cbn; lia.
  - split; [reflexivity|].
    intros [|[|[|j]]] entries Hentries; cbv in Hentries; try discriminate;
      injection Hentries as <-; cbn;
      (split; [by apply (bool_decide_unpack _)|]);
      repeat constructor.
  - intros xs Hxs. cbv in Hxs. injection Hxs as <-.
    by apply (bool_decide_unpack _).
  - reflexivity.
  - reflexivity.
Defined.

End SparseProfileMore.


(** ** The fuzzy join: further properties *)

Module FuzzyJoinMore.
Import FuzzyJoin FuzzyJoinFacts Matching.

(** *** Entries of the flattened matrix *)

Lemma concat_lookup_entry (d : list (list distance)) (shape : nat * nat)
    (i j : nat) :
  has_shape d shape → (j < shape.2)%nat →
  concat d !! (i * shape.2 + j)%nat = entry d i j.
Proof.
  destruct shape as [m n]. intros [_ Hrows] Hj. cbn in *. clear m.
  revert i. induction Hrows as [|r d Hr _ IH]; intros i.
  - unfold entry. by rewrite !lookup_nil.
  - change (concat (r :: d)) with (r ++ concat d). destruct i as [|i].
    + rewrite lookup_app_l by lia. done.
    + rewrite lookup_app_r by lia.
      replace (S i * n + j - length r)%nat with (i * n + j)%nat by lia.
      apply IH.
Qed.

Lemma unravel_index_entry (d : list (list distance)) (shape : nat * nat)
    (idx : nat) (p : nat * nat) :
  has_shape d shape → unravel_index idx shape = Ok p →
  (p.1 < shape.1)%nat ∧ (p.2 < shape.2)%nat ∧ concat d !! idx = entry d p.1 p.2.
Proof.
  intros Hd. unfold unravel_index. case_decide as Hidx; [|done].
  intros [= <-]. cbn [fst snd].
  assert (shape.2 ≠ 0)%nat as Hn by lia.
  pose proof (Nat.mod_upper_bound idx shape.2 Hn) as Hmod.
  split; [apply Nat.Div0.div_lt_upper_bound; lia|]. split; [done|].
  rewrite <-(concat_lookup_entry d shape) by done.
  f_equal. rewrite (Nat.div_mod_eq idx shape.2) at 1. lia.
Qed.

Lemma entry_mask (d : list (list distance)) (shape : nat * nat)
    (i0 j0 i j : nat) :
  has_shape d shape → (i < shape.1)%nat → (j < shape.2)%nat →
  entry (mask i0 j0 d) i j =
  if decide (i = i0 ∨ j = j0) then Some Inf else entry d i j.
Proof.
  intros [Hlen Hrows] Hi Hj. unfold entry, mask.
  rewrite list_lookup_fmap, list_lookup_alter.
  destruct (lookup_lt_is_Some_2 d i) as [r Hr]; [lia|].
  rewrite Forall_lookup in Hrows. pose proof (Hrows i r Hr) as Hr_len.
  destruct (decide (i0 = i)) as [->|Hi0]; rewrite Hr; cbn.
  - rewrite decide_True by auto.
    destruct (decide (j0 = j)) as [->|Hj0].
    + rewrite list_lookup_insert_eq by (rewrite length_fmap; lia). done.
    + rewrite list_lookup_insert_ne by done.
      rewrite list_lookup_fmap.
      destruct (lookup_lt_is_Some_2 r j) as [x Hx]; [lia|]. by rewrite Hx.
  - destruct (decide (j0 = j)) as [->|Hj0].
    + rewrite decide_True by auto.
      rewrite list_lookup_insert_eq by lia. done.
    + rewrite decide_False by (intros [?|?]; congruence).
      by rewrite list_lookup_insert_ne.
Qed.

Lemma masked_initial (d : list (list distance)) (shape : nat * nat) :
  has_shape d shape → masked shape d d [] [].
Proof.
  intros Hd. split; [done|]. intros i j _ _.
  rewrite decide_False; [done|]. intros [?%elem_of_nil|?%elem_of_nil]; done.
Qed.

Lemma masked_step (shape : nat * nat) (d0 d : list (list distance))
    (R C : list nat) (i0 j0 : nat) :
  masked shape d0 d R C → masked shape d0 (mask i0 j0 d) (i0 :: R) (j0 :: C).
Proof.
  intros [Hd Hentries]. split; [by apply has_shape_mask|].
  intros i j Hi Hj. rewrite (entry_mask d shape) by done.
  rewrite Hentries by done.
  destruct (decide (i = i0 ∨ j = j0)) as [H1|H1],
           (decide (i ∈ R ∨ j ∈ C)) as [H2|H2],
           (decide (i ∈ i0 :: R ∨ j ∈ j0 :: C)) as [H3|H3];
    try done; exfalso; rewrite !elem_of_cons in H3; tauto.
Qed.

(** Among fewer than [m] distinct numbers below [m], one is missing. *)
Lemma unused_index (m : nat) (used : list nat) :
  NoDup used → (length used < m)%nat → ∃ i, (i < m)%nat ∧ i ∉ used.
Proof.
  intros Hnd Hlen.
  destruct (decide (Exists (λ i, i ∉ used) (seq 0 m))) as [Hex|Hall].
  - apply Exists_exists in Hex as (i & Hi & Hnin).
    apply elem_of_seq in Hi. exists i. split; [lia|done].
  - exfalso. apply not_Exists_Forall in Hall; [|apply _].
    rewrite Forall_forall in Hall.
    assert (seq 0 m ⊆+ used) as Hsub.
    { apply NoDup_submseteq; [apply NoDup_seq|].
      intros i Hi. specialize (Hall i Hi). cbn in Hall.
      by apply dec_stable in Hall. }
    apply submseteq_length in Hsub. rewrite length_seq in Hsub. lia.
Qed.


Lemma entry_is_Some (d : list (list distance)) (shape : nat * nat) (i j : nat) :
  has_shape d shape → (i < shape.1)%nat → (j < shape.2)%nat →
  is_Some (entry d i j).
Proof.
  intros [Hlen Hrows] Hi Hj. unfold entry.
  destruct (lookup_lt_is_Some_2 d i) as [r Hr]; [lia|]. rewrite Hr. cbn.
  rewrite Forall_lookup in Hrows. apply lookup_lt_is_Some_2.
  rewrite (Hrows i r Hr). done.
Qed.

Lemma beats_Inf (x : distance) : x ≠ Inf → beats x Inf = true.
Proof. by destruct x. Qed.

(** *** The invariant of the greedy loop

    With [R] and [C] the rows and columns matched so far, each turn picks an
    entry outside [R] and [C] that no entry outside them beats. *)
Lemma greedy_invariant (shape : nat * nat) (d0 : list (list distance)) :
  has_shape d0 shape → finite_or_nan d0 →
  ∀ k d R C ps,
    masked shape d0 d R C → NoDup R → NoDup C → length R = length C →
    (length R + k ≤ shape.1 `min` shape.2)%nat →
    greedy k shape d = Ok ps →
    NoDup (ps.*1 ++ R) ∧ NoDup (ps.*2 ++ C) ∧
    ∀ t p i j,
      ps !! t = Some p → (i < shape.1)%nat → (j < shape.2)%nat →
      i ∉ (take t ps).*1 ++ R → j ∉ (take t ps).*2 ++ C →
      ∃ b x, entry d0 p.1 p.2 = Some b ∧ entry d0 i j = Some x ∧
             beats x b = false.
Proof.
  intros Hd0 Hfin. induction k as [|k IH]; intros d R C ps Hm HR HC Hlen Hk.
  { intros [= <-]. cbn. repeat split; [done..|]. intros t p i j Hp. done. }
  cbn [greedy]. destruct Hm as [Hd Hentries].
  destruct (argmin (concat d)) as [idx|] eqn:Hidx; cbn; [|done].
  destruct (unravel_index idx shape) as [p|] eqn:Hp; cbn; [|done].
  destruct (greedy k shape (mask p.1 p.2 d)) as [ps'|] eqn:Hps'; cbn; [|done].
  intros [= <-].
  destruct (unravel_index_entry d shape idx p Hd Hp) as (Hp1 & Hp2 & Hflat).
  destruct (argmin_first _ _ Hidx) as (b & Hb & Hmin & _).
  rewrite Hflat in Hb.
  (* every entry outside R and C is an original one, and does not beat b *)
  assert (∀ i j, (i < shape.1)%nat → (j < shape.2)%nat → i ∉ R → j ∉ C →
            ∃ x, entry d0 i j = Some x ∧ x ≠ Inf ∧ beats x b = false) as Hfree.
  { intros i j Hi Hj HiR HjC.
    destruct (entry_is_Some d0 shape i j Hd0 Hi Hj) as [x Hx].
    exists x. split; [done|]. split; [intros ->; by eapply Hfin|].
    apply (Hmin (i * shape.2 + j)%nat).
    rewrite (concat_lookup_entry d shape) by done.
    rewrite Hentries by done. rewrite decide_False by tauto. done. }
  (* so the entry picked is itself outside R and C *)
  assert ((p.1 ∉ R) ∧ (p.2 ∉ C)) as [Hp1R Hp2C].
  { destruct (unused_index shape.1 R) as (i & Hi & HiR); [done|lia|].
    destruct (unused_index shape.2 C) as (j & Hj & HjC); [done|lia|].
    destruct (Hfree i j Hi Hj HiR HjC) as (x & _ & Hx & Hxb).
    rewrite Hentries in Hb by done.
    destruct (decide (p.1 ∈ R ∨ p.2 ∈ C)) as [Hused|Hfresh]; [|tauto].
    injection Hb as <-. by rewrite beats_Inf in Hxb. }
  rewrite Hentries in Hb by done. rewrite decide_False in Hb by tauto.
  destruct (IH (mask p.1 p.2 d) (p.1 :: R) (p.2 :: C) ps')
    as (HndR & HndC & Hlater).
  { by apply masked_step. }
  { by apply NoDup_cons. }
  { by apply NoDup_cons. }
  { cbn. lia. }
  { cbn [length]. lia. }
  { done. }
  split; [|split].
  - cbn. by rewrite Permutation_middle.
  - cbn. by rewrite Permutation_middle.
  - intros [|t] q i j Hq Hi Hj HiR HjC.
    + injection Hq as <-. cbn in HiR, HjC.
      destruct (Hfree i j Hi Hj HiR HjC) as (x & Hx & _ & Hxb). eauto.
    + cbn in Hq, HiR, HjC. apply (Hlater t q i j Hq Hi Hj).
      * rewrite elem_of_app, elem_of_cons.
        rewrite elem_of_cons, elem_of_app in HiR. tauto.
      * rewrite elem_of_app, elem_of_cons.
        rewrite elem_of_cons, elem_of_app in HjC. tauto.
Qed.


(** *** The entries of the distance matrix *)

Lemma distance_matrix_entry (df1 df2 : DataFrame) (l1 l2 : list row)
    (d : list (list distance)) (i j : nat) (r1 r2 : row) :
  distance_matrix df1 df2 l1 l2 = Ok d →
  l1 !! i = Some r1 → l2 !! j = Some r2 →
  ∃ x, entry d i j = Some x ∧
       rank_distance (r1 !! "Rank") (r2 !! "Rank") = Ok x.
Proof.
  intros Hd Hr1 Hr2. apply mapM_result_Ok_inv in Hd.
  destruct (Forall2_lookup_l _ _ _ _ _ Hd Hr1) as (ds & Hds & Hrow).
  apply mapM_result_Ok_inv in Hrow.
  destruct (Forall2_lookup_l _ _ _ _ _ Hrow Hr2) as (x & Hx & Hdist).
  exists x. split; [unfold entry; by rewrite Hds|].
  unfold getattr in Hdist.
  destruct (decide ("Rank" ∈ columns df1)); cbn in Hdist; [|done].
  destruct (decide ("Rank" ∈ columns df2)); cbn in Hdist; [|done]. done.
Qed.

Lemma rank_distance_finite (a b : option value) (x : distance) :
  rank_distance a b = Ok x → x ≠ Inf.
Proof. destruct a as [[?|?]|], b as [[?|?]|]; cbn; by intros [= <-]. Qed.

Lemma distance_matrix_finite (df1 df2 : DataFrame) (l1 l2 : list row)
    (d : list (list distance)) :
  distance_matrix df1 df2 l1 l2 = Ok d → finite_or_nan d.
Proof.
  intros Hd i j Hinf.
  pose proof (distance_matrix_shape _ _ _ _ _ Hd) as [Hlen Hrows].
  unfold entry in Hinf.
  destruct (d !! i) as [ds|] eqn:Hds; [|done]. cbn in Hinf.
  rewrite Forall_lookup in Hrows. pose proof (Hrows i ds Hds) as Hds_len.
  destruct (lookup_lt_is_Some_2 l1 i) as [r1 Hr1].
  { apply lookup_lt_Some in Hds. cbn in Hlen. lia. }
  destruct (lookup_lt_is_Some_2 l2 j) as [r2 Hr2].
  { apply lookup_lt_Some in Hinf. cbn in Hds_len. lia. }
  destruct (distance_matrix_entry _ _ _ _ _ i j r1 r2 Hd Hr1 Hr2)
    as (x & Hx & Hdist).
  unfold entry in Hx. rewrite Hds in Hx. cbn in Hx.
  rewrite Hinf in Hx. injection Hx as <-.
  by apply rank_distance_finite in Hdist.
Qed.

(** What the loop gives for one name, from the invariant. *)
Lemma matched_pairs_inv (df1 df2 : DataFrame) (name : value)
    (ps : list (nat * nat)) :
  matched_pairs df1 df2 name = Ok ps →
  ∃ d, distance_matrix df1 df2 (rows_named df1 name) (rows_named df2 name) = Ok d ∧
       length ps = (length (rows_named df1 name) `min`
                    length (rows_named df2 name))%nat ∧
       Forall (λ p, p.1 < length (rows_named df1 name) ∧
                    p.2 < length (rows_named df2 name))%nat ps ∧
       NoDup ps.*1 ∧ NoDup ps.*2 ∧
       ∀ t p i j,
         ps !! t = Some p →
         (i < length (rows_named df1 name))%nat →
         (j < length (rows_named df2 name))%nat →
         i ∉ (take t ps).*1 → j ∉ (take t ps).*2 →
         ∃ b x, entry d p.1 p.2 = Some b ∧ entry d i j = Some x ∧
                beats x b = false.
Proof.
  unfold matched_pairs.
  set (l1 := rows_named df1 name). set (l2 := rows_named df2 name).
  destruct (distance_matrix df1 df2 l1 l2) as [d|] eqn:Hd; cbn; [|done].
  intros Hps. exists d. split; [done|].
  pose proof (distance_matrix_shape _ _ _ _ _ Hd) as Hshape.
  pose proof (distance_matrix_finite _ _ _ _ _ Hd) as Hfin.
  destruct (greedy_invariant (length l1, length l2) d Hshape Hfin
              (length l1 `min` length l2) d [] [] ps)
    as (HndR & HndC & Hclosest);
    [by apply masked_initial|constructor|constructor|done|cbn; lia|done|].
  rewrite app_nil_r in HndR, HndC.
  destruct (decide (0 < length l1 * length l2)%nat) as [Hpos|Hzero].
  - destruct (greedy_total (length l1 `min` length l2) (length l1, length l2) d)
      as (ps' & Hps' & Hlen & Hrange); [done|done|].
    rewrite Hps in Hps'. injection Hps' as <-.
    repeat split; [done..|].
    intros t p i j Hp Hi Hj HiR HjC.
    apply (Hclosest t p i j Hp Hi Hj); by rewrite app_nil_r.
  - assert (length l1 `min` length l2 = 0)%nat as Hmin by nia.
    rewrite Hmin in Hps. injection Hps as <-.
    repeat split; [by rewrite Hmin|constructor|constructor|constructor|].
    intros t p i j Hp. done.
Qed.

(** X6. The pairs matched for a name form a matching: as many pairs as the
    smaller group has rows, each indexing a row of either group, and no row
    of either group in two pairs. *)
Theorem matched_pairs_matching (df1 df2 : DataFrame) (name : value)
    (ps : list (nat * nat)) :
  matched_pairs df1 df2 name = Ok ps →
  length ps = (length (rows_named df1 name) `min`
               length (rows_named df2 name))%nat ∧
  Forall (λ p, p.1 < length (rows_named df1 name) ∧
               p.2 < length (rows_named df2 name))%nat ps ∧
  NoDup ps.*1 ∧ NoDup ps.*2.
Proof.
  intros (d & _ & Hlen & Hrange & HndR & HndC & _)%matched_pairs_inv. done.
Qed.

Lemma matched_pairs_matching_witness :
  length [(0, 1); (1, 0)]%nat =
    (length (rows_named results (VStr "Bo")) `min`
     length (rows_named standings (VStr "Bo")))%nat ∧
  Forall (λ p, p.1 < length (rows_named results (VStr "Bo")) ∧
               p.2 < length (rows_named standings (VStr "Bo")))%nat
         [(0, 1); (1, 0)]%nat ∧
  NoDup [(0, 1); (1, 0)]%nat.*1 ∧ NoDup [(0, 1); (1, 0)]%nat.*2.
Proof.
  apply (matched_pairs_matching results standings (VStr "Bo")). reflexivity.
Defined.

(** X7. Each matched pair is a closest one among the rows not matched
    before it. When the ranks of both groups are at most 2^52 in absolute
    value, so that the matrix of floats holds every distance exactly: with
    integer ranks, the rank distance of the pair matched at turn [t] is at
    most the rank distance of any row of the first group and row of the
    second group that the earlier turns left unmatched. *)
Theorem matched_pair_closest (df1 df2 : DataFrame) (name : value)
    (ps : list (nat * nat)) (t : nat) (p : nat * nat) (i j : nat)
    (r1 r2 r1' r2' : row) (a b a' b' : Z) :
  exact_ranks df1 name → exact_ranks df2 name →
  matched_pairs df1 df2 name = Ok ps → ps !! t = Some p →
  rows_named df1 name !! p.1 = Some r1 → rows_named df2 name !! p.2 = Some r2 →
  rows_named df1 name !! i = Some r1' → rows_named df2 name !! j = Some r2' →
  i ∉ (take t ps).*1 → j ∉ (take t ps).*2 →
  r1 !! "Rank" = Some (VInt a) → r2 !! "Rank" = Some (VInt b) →
  r1' !! "Rank" = Some (VInt a') → r2' !! "Rank" = Some (VInt b') →
  Z.abs (a - b) ≤ Z.abs (a' - b').
Proof.
  intros _ _ (d & Hd & _ & _ & _ & _ & Hclosest)%matched_pairs_inv
    Hp Hr1 Hr2 Hr1' Hr2' Hi Hj Ha Hb Ha' Hb'.
  destruct (Hclosest t p i j Hp) as (x & y & Hx & Hy & Hbeats);
    [by eapply lookup_lt_Some|by eapply lookup_lt_Some|done|done|].
  destruct (distance_matrix_entry _ _ _ _ _ _ _ _ _ Hd Hr1 Hr2)
    as (x' & Hx' & Hdx).
  destruct (distance_matrix_entry _ _ _ _ _ _ _ _ _ Hd Hr1' Hr2')
    as (y' & Hy' & Hdy).
  rewrite Hx in Hx'. injection Hx' as <-.
  rewrite Hy in Hy'. injection Hy' as <-.
  rewrite Ha, Hb in Hdx. rewrite Ha', Hb' in Hdy.
  injection Hdx as <-. injection Hdy as <-.
  cbn in Hbeats. apply bool_decide_eq_false in Hbeats. lia.
Qed.

Lemma matched_pair_closest_witness : Z.abs (6 - 6) ≤ Z.abs (6 - 1).
Proof.
  apply (matched_pair_closest results standings (VStr "Bo")
           [(0, 1); (1, 0)]%nat 1 (1, 0)%nat 1 2
           (player "Bo" 6) (player "Bo" 6) (player "Bo" 6) (player "Bo" 1));
    try reflexivity.
  - by apply (bool_decide_unpack _).
  - by apply (bool_decide_unpack _).
  - by apply (bool_decide_unpack _).
  - by apply (bool_decide_unpack _).
Defined.


(** *** Which joins return *)

Lemma rank_distance_numeric (a b : option value) (x : distance) :
  rank_distance a b = Ok x → numeric a ∧ numeric b.
Proof. by destruct a as [[?|?]|], b as [[?|?]|]. Qed.

Lemma distance_matrix_numeric (df1 df2 : DataFrame) (l1 l2 : list row)
    (d : list (list distance)) :
  distance_matrix df1 df2 l1 l2 = Ok d →
  (0 < length l1)%nat → (0 < length l2)%nat →
  Forall (λ r : row, numeric (r !! "Rank")) l1 ∧
  Forall (λ r : row, numeric (r !! "Rank")) l2.
Proof.
  intros Hd H1 H2.
  destruct (lookup_lt_is_Some_2 l1 0 H1) as [r1 Hr1].
  destruct (lookup_lt_is_Some_2 l2 0 H2) as [r2 Hr2].
  split; apply Forall_lookup; intros i r Hr.
  - destruct (distance_matrix_entry _ _ _ _ _ i 0%nat r r2 Hd Hr Hr2)
      as (x & _ & Hx). by apply rank_distance_numeric in Hx as [? _].
  - destruct (distance_matrix_entry _ _ _ _ _ 0%nat i r1 r Hd Hr1 Hr)
      as (x & _ & Hx). by apply rank_distance_numeric in Hx as [_ ?].
Qed.

(** One turn of the loop returns exactly when it has nothing to match or
    the ranks of both groups are numeric. *)
Lemma fuzzy_match_returns (df1 df2 : DataFrame) (name : value) :
  "Player" ∈ columns df1 → "Rank" ∈ columns df1 → "Rank" ∈ columns df2 →
  (in_both df1 df2 name → numeric_group df1 name ∧ numeric_group df2 name) →
  ∃ frames, fuzzy_match df1 df2 name = Ok frames ∧
    length frames = (length (rows_named df1 name) `min`
                     length (rows_named df2 name))%nat ∧
    Forall (joined_from df1 df2 name) frames.
Proof.
  intros HP HR1 HR2 Hnum.
  destruct (decide (in_both df1 df2 name)) as [Hboth|Hnone].
  - destruct (Hnum Hboth) as [Hn1 Hn2].
    destruct (distance_matrix_total df1 df2
      (rows_named df1 name) (rows_named df2 name)) as (d & Hd & Hshape);
      [done..|].
    by apply (fuzzy_match_pairs df1 df2 name d).
  - exists []. rewrite fuzzy_match_skip by done.
    unfold in_both in Hnone. repeat split; [cbn; lia|constructor].
Qed.

Lemma fuzzy_match_string_rank (df1 df2 : DataFrame) (name : value) :
  "Player" ∈ columns df1 → "Rank" ∈ columns df1 → "Rank" ∈ columns df2 →
  in_both df1 df2 name →
  ¬ (numeric_group df1 name ∧ numeric_group df2 name) →
  fuzzy_match df1 df2 name = Raise TypeError.
Proof.
  intros HP HR1 HR2 Hboth Hbad.
  destruct (distance_matrix df1 df2 (rows_named df1 name) (rows_named df2 name))
    as [d|e] eqn:Hd.
  - destruct Hbad.
    by apply (distance_matrix_numeric df1 df2 _ _ d); [|apply Hboth..].
  - rewrite (fuzzy_match_raise df1 df2 name e) by done.
    apply distance_matrix_raise in Hd as ->.
    unfold rank_error. by rewrite decide_True.
Qed.

Lemma fuzzy_results_returns (df1 df2 : DataFrame) (names : list value) :
  "Player" ∈ columns df1 → "Rank" ∈ columns df1 → "Rank" ∈ columns df2 →
  Forall (λ x, in_both df1 df2 x →
               numeric_group df1 x ∧ numeric_group df2 x) names →
  ∃ frames,
    Forall2 (λ x fs, fuzzy_match df1 df2 x = Ok fs ∧
                     length fs = (length (rows_named df1 x) `min`
                                  length (rows_named df2 x))%nat ∧
                     Forall (joined_from df1 df2 x) fs) names frames ∧
    fuzzy_results df1 df2 names = Ok (concat frames).
Proof.
  intros HP HR1 HR2 Hnum.
  assert (∃ frames,
    Forall2 (λ x fs, fuzzy_match df1 df2 x = Ok fs ∧
                     length fs = (length (rows_named df1 x) `min`
                                  length (rows_named df2 x))%nat ∧
                     Forall (joined_from df1 df2 x) fs) names frames)
    as [frames Hframes].
  { induction Hnum as [|x names Hx _ [frames IH]]; [by exists []|].
    destruct (fuzzy_match_returns df1 df2 x HP HR1 HR2 Hx) as (fs & Hfs).
    exists (fs :: frames). by constructor. }
  exists frames. split; [done|]. apply fuzzy_results_Ok.
  exists frames. split; [|done].
  eapply Forall2_impl; [exact Hframes|]. by intros x fs [? _].
Qed.

(** X8. For tables with the name and rank columns, string names and
    distinct joined labels, the join returns exactly when the ranks it has to compare are
    numeric, that is integers or missing (a float NaN cell; Python's [None]
    is no cell of the model): it raises [TypeError] if some ambiguous name
    with rows in both tables has a string among the ranks of its rows, and
    returns otherwise, whatever the ranks of the other rows are. *)
Theorem join_returns_iff_ranks_numeric (set_iter : list value → list value)
    (df1 df2 : DataFrame) :
  set_listing set_iter →
  "Player" ∈ columns df1 → "Player" ∈ columns df2 →
  "Rank" ∈ columns df1 → "Rank" ∈ columns df2 →
  distinct_labels df1 df2 → string_names df1 → string_names df2 →
  ((∃ name, (1 < length (rows_named df1 name) ∨
             1 < length (rows_named df2 name))%nat ∧
            in_both df1 df2 name ∧
            ¬ (numeric_group df1 name ∧ numeric_group df2 name)) →
   fuzzy_join set_iter df1 df2 = Raise TypeError) ∧
  ((∀ name, (1 < length (rows_named df1 name) ∨
             1 < length (rows_named df2 name))%nat →
            in_both df1 df2 name →
            numeric_group df1 name ∧ numeric_group df2 name) →
   ∃ out, fuzzy_join set_iter df1 df2 = Ok out).
Proof.
  intros Hset HP1 HP2 HR1 HR2 _ _ _. rewrite fuzzy_join_eq by done. split.
  - intros (name & Hamb & Hboth & Hbad).
    apply (elem_of_ambiguous_names set_iter df1 df2 name Hset) in Hamb.
    pose proof (fuzzy_match_string_rank df1 df2 name HP1 HR1 HR2 Hboth Hbad)
      as Hname.
    destruct (fuzzy_results df1 df2 _) as [fuzzy|e] eqn:Hfuzzy; cbn.
    + destruct (fuzzy_results_all_Ok _ _ _ _ Hfuzzy name Hamb) as [fs Hfs].
      congruence.
    + apply fuzzy_results_Raise in Hfuzzy as (x & _ & Hx).
      apply fuzzy_match_error in Hx as ->; [|done].
      unfold rank_error. by rewrite decide_True.
  - intros Hnum.
    destruct (fuzzy_results_returns df1 df2
                (ambiguous_names set_iter df1 df2) HP1 HR1 HR2)
      as (frames & _ & Hfuzzy).
    { apply Forall_forall. intros x Hx. apply Hnum.
      by apply elem_of_ambiguous_names in Hx. }
    rewrite Hfuzzy. cbn. eauto.
Qed.


Lemma join_returns_iff_ranks_numeric_witness :
  ((∃ name, (1 < length (rows_named seeded name) ∨
             1 < length (rows_named standings name))%nat ∧
            in_both seeded standings name ∧
            ¬ (numeric_group seeded name ∧ numeric_group standings name)) →
   fuzzy_join remove_dups seeded standings = Raise TypeError) ∧
  ((∀ name, (1 < length (rows_named seeded name) ∨
             1 < length (rows_named standings name))%nat →
            in_both seeded standings name →
            numeric_group seeded name ∧ numeric_group standings name) →
   ∃ out, fuzzy_join remove_dups seeded standings = Ok out).
Proof.
  apply (join_returns_iff_ranks_numeric remove_dups seeded standings).
  - intros l. reflexivity.
  - by apply (bool_decide_unpack _).
  - by apply (bool_decide_unpack _).
  - by apply (bool_decide_unpack _).
  - by apply (bool_decide_unpack _).
  - by apply (bool_decide_unpack _).
  - by apply (bool_decide_unpack _).
  - by apply (bool_decide_unpack _).
Defined.

(** *** The size and the labels of the result *)

Lemma joined_from_rows_length (df1 df2 : DataFrame) (x : value)
    (fs : list DataFrame) :
  Forall (joined_from df1 df2 x) fs → length (fs ≫= rows) = length fs.
Proof.
  induction 1 as [|frame fs (_ & r1 & r2 & _ & _ & Hrows) _ IH]; [done|].
  cbn. rewrite Hrows. cbn. by rewrite IH.
Qed.

Lemma fuzzy_rows_length (df1 df2 : DataFrame) (names : list value)
    (frames : list (list DataFrame)) :
  Forall2 (λ x fs, fuzzy_match df1 df2 x = Ok fs ∧
                   length fs = (length (rows_named df1 x) `min`
                                length (rows_named df2 x))%nat ∧
                   Forall (joined_from df1 df2 x) fs) names frames →
  length (concat frames ≫= rows) =
  sum_list ((λ x, length (rows_named df1 x) `min`
                  length (rows_named df2 x))%nat <$> names).
Proof.
  induction 1 as [|x fs names frames (_ & Hlen & Hfs) _ IH]; [done|].
  cbn. rewrite bind_app, length_app, IH.
  by rewrite (joined_from_rows_length df1 df2 x), Hlen.
Qed.

Lemma fuzzy_frames_nil (df1 df2 : DataFrame) (names : list value)
    (frames : list (list DataFrame)) :
  Forall2 (λ x fs, fuzzy_match df1 df2 x = Ok fs ∧
                   length fs = (length (rows_named df1 x) `min`
                                length (rows_named df2 x))%nat ∧
                   Forall (joined_from df1 df2 x) fs) names frames →
  concat frames = [] ↔ Forall (λ x, ¬ in_both df1 df2 x) names.
Proof.
  induction 1 as [|x fs names frames (_ & Hlen & _) _ IH]; [done|].
  cbn. rewrite Forall_cons, <-IH. unfold in_both. split.
  - intros [-> ->]%app_eq_nil. cbn in Hlen. split; [lia|done].
  - intros [Hx ->]. rewrite app_nil_r. apply nil_length_inv. lia.
Qed.

Lemma ranked_numeric_group (df : DataFrame) (name : value) :
  ranked df → numeric_group df name.
Proof. apply ranked_rows_named. Qed.

Lemma ranked_fuzzy_results (set_iter : list value → list value)
    (df1 df2 : DataFrame) :
  ranked df1 → ranked df2 →
  ∃ frames,
    Forall2 (λ x fs, fuzzy_match df1 df2 x = Ok fs ∧
                     length fs = (length (rows_named df1 x) `min`
                                  length (rows_named df2 x))%nat ∧
                     Forall (joined_from df1 df2 x) fs)
            (ambiguous_names set_iter df1 df2) frames ∧
    fuzzy_join set_iter df1 df2 =
      Ok (combined df1 df2 (ambiguous_names set_iter df1 df2) (concat frames)).
Proof.
  intros H1 H2.
  destruct (fuzzy_results_returns df1 df2 (ambiguous_names set_iter df1 df2))
    as (frames & Hframes & Hfuzzy); [apply H1|apply H1|apply H2| |].
  { apply Forall_forall. intros x _ _.
    split; by apply ranked_numeric_group. }
  exists frames. split; [done|].
  rewrite fuzzy_join_eq; [|apply H1|apply H2]. by rewrite Hfuzzy.
Qed.

(** X9. On tables of player records with string names and distinct
    joined labels the join returns, and the result has the rows the exact phase keeps and, for
    every ambiguous name, as many rows as the smaller of its two groups. *)
Theorem join_row_count (set_iter : list value → list value)
    (df1 df2 : DataFrame) :
  ranked df1 → ranked df2 → distinct_labels df1 df2 →
  string_names df1 → string_names df2 →
  ∃ out,
    fuzzy_join set_iter df1 df2 = Ok out ∧
    length (rows out) =
      (length (exact_rows df1 df2 (ambiguous_names set_iter df1 df2)) +
       sum_list ((λ x, length (rows_named df1 x) `min`
                       length (rows_named df2 x))
                 <$> ambiguous_names set_iter df1 df2))%nat.
Proof.
  intros H1 H2 _ _ _.
  destruct (ranked_fuzzy_results set_iter df1 df2 H1 H2)
    as (frames & Hframes & Hjoin).
  eexists. split; [exact Hjoin|]. cbn.
  by rewrite length_app,
    (fuzzy_rows_length df1 df2 (ambiguous_names set_iter df1 df2) frames).
Qed.

Lemma join_row_count_witness :
  ∃ out,
    fuzzy_join remove_dups results standings = Ok out ∧
    length (rows out) =
      (length (exact_rows results standings
                 (ambiguous_names remove_dups results standings)) +
       sum_list ((λ x, length (rows_named results x) `min`
                       length (rows_named standings x))
                 <$> ambiguous_names remove_dups results standings))%nat.
Proof.
  apply (join_row_count remove_dups results standings);
    by apply (bool_decide_unpack _).
Defined.

(** X10. On tables of player records with string names and distinct
    joined labels the join returns, and the labels of the result depend on the rows: when some ambiguous name has rows in both tables they are the
    labels of the standard join followed by those of [name], [rank_df1],
    [rank_df2] that are new; otherwise they are the labels of the standard
    join alone. *)
Theorem join_labels (set_iter : list value → list value) (df1 df2 : DataFrame) :
  set_listing set_iter → ranked df1 → ranked df2 → distinct_labels df1 df2 →
  string_names df1 → string_names df2 →
  ∃ out,
    fuzzy_join set_iter df1 df2 = Ok out ∧
    ((∃ name, (1 < length (rows_named df1 name) ∨
               1 < length (rows_named df2 name))%nat ∧
              in_both df1 df2 name) →
     columns out =
       merge_columns "Player" no_suffix "_standings" df1 df2 ++
       list_difference ["name"; "rank_df1"; "rank_df2"]
         (merge_columns "Player" no_suffix "_standings" df1 df2)) ∧
    ((∀ name, (1 < length (rows_named df1 name) ∨
               1 < length (rows_named df2 name))%nat →
              ¬ in_both df1 df2 name) →
     columns out = merge_columns "Player" no_suffix "_standings" df1 df2).
Proof.
  intros Hset H1 H2 _ _ _.
  destruct (ranked_fuzzy_results set_iter df1 df2 H1 H2)
    as (frames & Hframes & Hjoin).
  pose proof (fuzzy_frames_nil df1 df2 (ambiguous_names set_iter df1 df2)
                frames Hframes) as Hnil.
  eexists. split; [exact Hjoin|]. cbn. split.
  - intros (name & Hamb & Hboth). rewrite decide_True; [done|].
    intros Hempty. apply Hnil in Hempty. rewrite Forall_forall in Hempty.
    apply (Hempty name); [|done]. by apply elem_of_ambiguous_names.
  - intros Hnone. rewrite decide_False; [done|].
    intros Hne. apply Hne, Hnil, Forall_forall. intros x Hx.
    apply Hnone. by apply elem_of_ambiguous_names in Hx.
Qed.

Lemma join_labels_witness :
  ∃ out,
    fuzzy_join remove_dups results standings = Ok out ∧
    ((∃ name, (1 < length (rows_named results name) ∨
               1 < length (rows_named standings name))%nat ∧
              in_both results standings name) →
     columns out =
       merge_columns "Player" no_suffix "_standings" results standings ++
       list_difference ["name"; "rank_df1"; "rank_df2"]
         (merge_columns "Player" no_suffix "_standings" results standings)) ∧
    ((∀ name, (1 < length (rows_named results name) ∨
               1 < length (rows_named standings name))%nat →
              ¬ in_both results standings name) →
     columns out =
       merge_columns "Player" no_suffix "_standings" results standings).
Proof.
  apply (join_labels remove_dups results standings);
    [intros l; reflexivity|by apply (bool_decide_unpack _)..].
Defined.

End FuzzyJoinMore.


(** ** The analyzer: properties *)

Module AnalyzerFacts.
Import SparseProfile SparseDense FuzzyJoin Analyzer.
Import SparseProfileFacts SparseProfileMore.

(** *** The card list *)

Lemma prefix_SB_other (a : Ascii.ascii) (s : string) :
  a ≠ "_"%char → String.prefix "_SB" (String a s) = false.
Proof.
  intros Ha.
  change (String.prefix "_SB" (String a s))
    with (if Ascii.ascii_dec "_" a then String.prefix "SB" s else false).
  by destruct (Ascii.ascii_dec "_" a) as [<-|].
Qed.

Lemma replace_free (s : string) :
  free_of "_" s → str_replace "_SB" EmptyString s = s.
Proof.
  unfold str_replace. induction s as [|a s IH]; [done|]. intros [Ha Hs].
  cbn [replace_from]. rewrite prefix_SB_other by done. by rewrite IH.
Qed.

Lemma replace_free_SB (s : string) :
  free_of "_" s → str_replace "_SB" EmptyString (s +:+ "_SB") = s.
Proof.
  unfold str_replace. induction s as [|a s IH]; [done|]. intros [Ha Hs].
  change (String a s +:+ "_SB") with (String a (s +:+ "_SB")).
  cbn [replace_from]. rewrite prefix_SB_other by done. by rewrite IH.
Qed.

Lemma elem_of_dict_keys (feature_names : gmap string nat) (name : string) :
  name ∈ dict_keys feature_names ↔ is_Some (feature_names !! name).
Proof.
  unfold dict_keys. rewrite list_elem_of_fmap. split.
  - intros ([k i] & -> & Hin). apply elem_of_map_to_list in Hin. by eexists.
  - intros [i Hi]. exists (name, i). split; [done|].
    by apply elem_of_map_to_list.
Qed.

Lemma card_options_Permutation (set_iter : list string → list string)
    (feature_names : gmap string nat) :
  string_set_listing set_iter →
  card_options set_iter feature_names ≡ₚ
  remove_dups ((λ name, str_replace "_SB" EmptyString name) <$>
               dict_keys feature_names).
Proof.
  intros Hset. unfold card_options.
  by rewrite merge_sort_Permutation, (Hset _).
Qed.

(** X11. The card options are sorted and free of duplicates, and they are
    exactly the keys of the vocabulary with every [_SB] taken out. *)
Theorem card_options_sorted_distinct (set_iter : list string → list string)
    (feature_names : gmap string nat) :
  string_set_listing set_iter →
  StronglySorted String.le (card_options set_iter feature_names) ∧
  NoDup (card_options set_iter feature_names) ∧
  ∀ c, c ∈ card_options set_iter feature_names ↔
       ∃ name, is_Some (feature_names !! name) ∧
               c = str_replace "_SB" EmptyString name.
Proof.
  intros Hset.
  pose proof (card_options_Permutation set_iter feature_names Hset) as Hperm.
  split; [apply StronglySorted_merge_sort; apply _|]. split.
  - rewrite Hperm. apply NoDup_remove_dups.
  - intros c. rewrite Hperm, elem_of_remove_dups, list_elem_of_fmap.
    split; intros (name & Hc & Hname); exists name;
      by rewrite elem_of_dict_keys in *.
Qed.

Lemma card_options_sorted_distinct_witness :
  StronglySorted String.le (card_options remove_dups small_vocabulary) ∧
  NoDup (card_options remove_dups small_vocabulary) ∧
  ∀ c, c ∈ card_options remove_dups small_vocabulary ↔
       ∃ name, is_Some (small_vocabulary !! name) ∧
               c = str_replace "_SB" EmptyString name.
Proof.
  apply (card_options_sorted_distinct remove_dups small_vocabulary).
  intros l. reflexivity.
Defined.

(** X12. The card options do not depend on the order in which Python
    iterates the set of names. *)
Theorem card_options_order_independent
    (set_iter1 set_iter2 : list string → list string)
    (feature_names : gmap string nat) :
  string_set_listing set_iter1 → string_set_listing set_iter2 →
  card_options set_iter1 feature_names = card_options set_iter2 feature_names.
Proof.
  intros H1 H2. apply (Sorted_unique String.le).
  - apply Sorted_merge_sort; apply _.
  - apply Sorted_merge_sort; apply _.
  - by rewrite !card_options_Permutation.
Qed.

Lemma card_options_order_independent_witness :
  card_options remove_dups small_vocabulary =
  card_options (λ l, reverse (remove_dups l)) small_vocabulary.
Proof.
  apply (card_options_order_independent remove_dups
           (λ l, reverse (remove_dups l)) small_vocabulary).
  - intros l. reflexivity.
  - intros l. apply reverse_Permutation.
Defined.

(** X13. A card whose name has no underscore is an option as soon as the
    vocabulary has its mainboard column or its sideboard column; both
    columns give the one option. *)
Theorem card_option_of_either_column (set_iter : list string → list string)
    (feature_names : gmap string nat) (card : string) :
  string_set_listing set_iter → free_of "_" card →
  is_Some (feature_names !! card) ∨
    is_Some (feature_names !! (card +:+ "_SB")) →
  card ∈ card_options set_iter feature_names ∧
  str_replace "_SB" EmptyString card = card ∧
  str_replace "_SB" EmptyString (card +:+ "_SB") = card.
Proof.
  intros Hset Hfree Hkey.
  pose proof (replace_free card Hfree) as Hmb.
  pose proof (replace_free_SB card Hfree) as Hsb.
  split; [|done].
  rewrite (card_options_Permutation set_iter feature_names Hset).
  rewrite elem_of_remove_dups, list_elem_of_fmap.
  destruct Hkey as [Hkey|Hkey].
  - exists card. by rewrite elem_of_dict_keys.
  - exists (card +:+ "_SB"). by rewrite elem_of_dict_keys.
Qed.

Lemma card_option_of_either_column_witness :
  "Duress" ∈ card_options remove_dups sideboard_vocabulary ∧
  str_replace "_SB" EmptyString "Duress" = "Duress" ∧
  str_replace "_SB" EmptyString ("Duress" +:+ "_SB") = "Duress".
Proof.
  apply (card_option_of_either_column remove_dups sideboard_vocabulary "Duress").
  - intros l. reflexivity.
  - cbn. by repeat split.
  - right. by eexists.
Defined.


(** *** The card presence view *)

Lemma length_dense_column (X : sparse_matrix) (j : nat) (cells : list Z) :
  dense_column X j = Ok cells → length cells = (shape (csc X)).1.
Proof.
  unfold dense_column.
  destruct (column_entries X j) as [entries|]; cbn; [|done].
  intros [= <-]. apply length_scatter.
Qed.

Lemma column_positive_Ok (X : sparse_matrix) (j : nat) (bs : list bool) :
  column_positive X j = Ok bs →
  ∃ cells, dense_column X j = Ok cells ∧
           bs = (λ v, bool_decide (0 < v)) <$> cells ∧
           length bs = (shape (csc X)).1.
Proof.
  unfold column_positive.
  destruct (dense_column X j) as [cells|] eqn:Hcells; cbn; [|done].
  intros [= <-]. exists cells. repeat split.
  rewrite length_fmap. by eapply length_dense_column.
Qed.

Lemma iand_aligned (mask other : list bool) :
  length other = length mask → iand mask other = Ok (zip_with andb mask other).
Proof. intros Hlen. unfold iand. by rewrite decide_True. Qed.

(** What the loop over the selected cards leaves of a mask as long as the
    matrix has rows. *)
Lemma presence_loop_spec (X : sparse_matrix) (feature_names : gmap string nat)
    (cards : list string) (mask0 mask : list bool) :
  length mask0 = (shape (csc X)).1 →
  presence_loop X feature_names mask0 cards = Ok mask →
  length mask = (shape (csc X)).1 ∧
  ∀ i, mask !! i = Some true ↔
       mask0 !! i = Some true ∧
       ∀ card, card ∈ cards → plays X feature_names card i.
Proof.
  revert mask0. induction cards as [|card cards IH]; intros mask0 Hlen.
  { intros [= <-]. split; [done|]. intros i. split; [|by intros [? _]].
    intros Hi. split; [done|]. by intros card ?%elem_of_nil. }
  cbn [presence_loop]. unfold dict_getitem.
  destruct (feature_names !! card) as [mb_idx|] eqn:Hmb_idx; cbn; [|done].
  destruct (column_positive X mb_idx) as [mb|] eqn:Hmb; cbn; [|done].
  destruct (feature_names !! (card +:+ "_SB")) as [sb_idx|] eqn:Hsb_idx;
    cbn; [|done].
  destruct (column_positive X sb_idx) as [sb|] eqn:Hsb; cbn; [|done].
  apply column_positive_Ok in Hmb as (mcells & Hmcells & -> & Hmlen).
  apply column_positive_Ok in Hsb as (scells & Hscells & -> & Hslen).
  rewrite iand_aligned by (rewrite length_zip_with; lia). cbn.
  intros Hloop. apply IH in Hloop as [Hmask Hrows];
    [|rewrite !length_zip_with; lia].
  split; [done|]. intros i. rewrite Hrows. clear Hrows IH.
  rewrite lookup_zip_with_Some.
  setoid_rewrite lookup_zip_with_Some.
  setoid_rewrite list_lookup_fmap_Some.
  split.
  - intros [(b & o & Hbo & Hb & bm & bs & -> & (m & -> & Hm) & (s & -> & Hs))
            Hcards].
    symmetry in Hbo. apply andb_true_iff in Hbo as [-> Hor].
    split; [done|]. intros c [->|Hc]%elem_of_cons; [|by auto].
    exists mb_idx, sb_idx, mcells, scells. repeat split; [done..|].
    exists m, s. repeat split; [done..|].
    apply orb_true_iff in Hor as [Hor|Hor]; apply bool_decide_eq_true in Hor;
      auto.
  - intros [Hi Hcards]. split; [|intros c Hc; apply Hcards; by right].
    destruct (Hcards card) as
      (mb_idx' & sb_idx' & mb' & sb' & Hk1 & Hk2 & Hd1 & Hd2 &
       m & s & Hm & Hs & Hpos); [by left|].
    simplify_eq. rewrite Hmcells in Hd1. rewrite Hscells in Hd2. simplify_eq.
    exists true, (bool_decide (0 < m) || bool_decide (0 < s)).
    split.
    { symmetry. cbn. apply orb_true_iff.
      destruct Hpos; [left|right]; by apply bool_decide_eq_true. }
    split; [done|]. eexists _, _. split; [done|]. split; eauto.
Qed.

(** X14. When the frame has as many rows as the matrix, the presence
    view, if it returns, keeps exactly the rows whose deck plays every
    selected card, in the order of the frame, and of each row the four cells
    shown. *)
Theorem presence_view_rows (X : sparse_matrix)
    (feature_names : gmap string nat) (df out : DataFrame)
    (selected_cards : list string) :
  length (rows df) = (shape (csc X)).1 →
  get_card_presence_view X feature_names df selected_cards = Ok out →
  ∃ mask,
    length mask = length (rows df) ∧
    (∀ i, mask !! i = Some true ↔
          (i < length (rows df))%nat ∧
          ∀ card, card ∈ selected_cards → plays X feature_names card i) ∧
    out =
      {| columns := ["Player"; "Wins"; "Losses"; "Date"];
         rows := (λ r : row,
                    filter (λ kv, kv.1 ∈ ["Player"; "Wins"; "Losses"; "Date"]) r)
                 <$> rows (boolean_index df mask) |}.
Proof.
  intros Hlen. unfold get_card_presence_view.
  destruct (presence_loop _ _ _ _) as [mask|] eqn:Hloop; cbn; [|done].
  apply presence_loop_spec in Hloop as [Hmask Hrows];
    [|by rewrite length_replicate].
  unfold select_columns. case_decide as Hcols; [|done]. intros [= <-].
  exists mask. split; [lia|]. split; [|done].
  intros i. rewrite Hrows, lookup_replicate. intuition.
Qed.

Lemma presence_view_rows_witness :
  ∃ mask,
    length mask = length (rows small_decks) ∧
    (∀ i, mask !! i = Some true ↔
          (i < length (rows small_decks))%nat ∧
          ∀ card, card ∈ ["Opt"] → plays small_sparse small_vocabulary card i) ∧
    small_decks =
      {| columns := ["Player"; "Wins"; "Losses"; "Date"];
         rows := (λ r : row,
                    filter (λ kv, kv.1 ∈ ["Player"; "Wins"; "Losses"; "Date"]) r)
                 <$> rows (boolean_index small_decks mask) |}.
Proof.
  apply (presence_view_rows small_sparse small_vocabulary small_decks
           small_decks ["Opt"]); reflexivity.
Defined.

(** *** Cards without both columns *)

Lemma dense_column_canonical (X : sparse_matrix) (j : nat) :
  canonical (csc X) → (j < (shape (csc X)).2)%nat →
  ∃ cells, dense_column X j = Ok cells.
Proof.
  intros HX Hj.
  destruct (canonical_column _ j HX Hj) as (s & e & Hs & He & _).
  unfold dense_column. rewrite (column_entries_eq X j s e Hs He). by eexists.
Qed.

Lemma column_positive_canonical (X : sparse_matrix) (j : nat) :
  canonical (csc X) → (j < (shape (csc X)).2)%nat →
  ∃ bs, column_positive X j = Ok bs ∧ length bs = (shape (csc X)).1.
Proof.
  intros HX Hj. destruct (dense_column_canonical X j HX Hj) as [cells Hcells].
  unfold column_positive. rewrite Hcells. cbn. eexists. split; [done|].
  rewrite length_fmap. by eapply length_dense_column.
Qed.

Lemma presence_loop_missing_key (X : sparse_matrix)
    (feature_names : gmap string nat) (cards : list string) (mask0 : list bool) :
  canonical (csc X) → vocabulary_fits X feature_names →
  length mask0 = (shape (csc X)).1 →
  (∃ card, card ∈ cards ∧
           (feature_names !! card = None ∨
            feature_names !! (card +:+ "_SB") = None)) →
  presence_loop X feature_names mask0 cards = Raise KeyError.
Proof.
  intros HX Hfits. revert mask0.
  induction cards as [|card cards IH]; intros mask0 Hlen (c & Hc & Hmissing).
  { by apply elem_of_nil in Hc. }
  cbn [presence_loop]. unfold dict_getitem.
  destruct (feature_names !! card) as [mb_idx|] eqn:Hmb_idx; cbn; [|done].
  destruct (column_positive_canonical X mb_idx HX) as (mb & -> & Hmb);
    [by eapply Hfits|]. cbn.
  destruct (feature_names !! (card +:+ "_SB")) as [sb_idx|] eqn:Hsb_idx;
    cbn; [|done].
  destruct (column_positive_canonical X sb_idx HX) as (sb & -> & Hsb);
    [by eapply Hfits|]. cbn.
  rewrite iand_aligned by (rewrite length_zip_with; lia). cbn.
  apply IH; [rewrite !length_zip_with; lia|].
  apply elem_of_cons in Hc as [->|Hc]; [|by eauto].
  destruct Hmissing; congruence.
Qed.

(** X15. With a canonical matrix, a vocabulary whose indices are columns
    of it and a frame with as many rows, the presence view raises [KeyError]
    as soon as one selected card lacks its mainboard column or its sideboard
    column in the vocabulary. *)
Theorem presence_view_missing_column (X : sparse_matrix)
    (feature_names : gmap string nat) (df : DataFrame)
    (selected_cards : list string) :
  canonical (csc X) → vocabulary_fits X feature_names →
  length (rows df) = (shape (csc X)).1 →
  (∃ card, card ∈ selected_cards ∧
           (feature_names !! card = None ∨
            feature_names !! (card +:+ "_SB") = None)) →
  get_card_presence_view X feature_names df selected_cards = Raise KeyError.
Proof.
  intros HX Hfits Hlen Hmissing. unfold get_card_presence_view.
  rewrite presence_loop_missing_key; [done..| |done].
  by rewrite length_replicate.
Qed.

(** X16. An option that stems from a sideboard column alone cannot be
    selected: a card without underscore whose sideboard column is in the
    vocabulary, but not its mainboard column, is among the card options, and
    the presence view of that card alone raises [KeyError]. *)
Theorem sideboard_only_option_raises (set_iter : list string → list string)
    (X : sparse_matrix) (feature_names : gmap string nat) (df : DataFrame)
    (card : string) :
  string_set_listing set_iter → free_of "_" card →
  is_Some (feature_names !! (card +:+ "_SB")) →
  feature_names !! card = None →
  card ∈ card_options set_iter feature_names ∧
  get_card_presence_view X feature_names df [card] = Raise KeyError.
Proof.
  intros Hset Hfree Hsb Hmb. split.
  - rewrite (card_options_Permutation set_iter feature_names Hset).
    rewrite elem_of_remove_dups, list_elem_of_fmap.
    exists (card +:+ "_SB"). rewrite elem_of_dict_keys.
    by rewrite replace_free_SB.
  - unfold get_card_presence_view. cbn [presence_loop].
    unfold dict_getitem. by rewrite Hmb.
Qed.

Lemma presence_view_missing_column_witness :
  get_card_presence_view small_sparse sideboard_vocabulary small_decks
    ["Opt"; "Duress"] = Raise KeyError.
Proof.
  apply (presence_view_missing_column small_sparse sideboard_vocabulary
           small_decks ["Opt"; "Duress"]).
  - split; [reflexivity|].
    intros [|[|[|j]]] s e; cbn; intros Hs He; simplify_eq; cbn; lia.
  - apply map_Forall_insert_2; [cbn; lia|].
    apply map_Forall_singleton. cbn. lia.
  - reflexivity.
  - exists "Opt". split; [left|]. right. reflexivity.
Defined.

Lemma sideboard_only_option_raises_witness :
  "Duress" ∈ card_options remove_dups sideboard_vocabulary ∧
  get_card_presence_view small_sparse sideboard_vocabulary small_decks
    ["Duress"] = Raise KeyError.
Proof.
  apply (sideboard_only_option_raises remove_dups small_sparse
           sideboard_vocabulary small_decks "Duress").
  - intros l. reflexivity.
  - cbn. by repeat split.
  - by eexists.
  - reflexivity.
Defined.


(** *** The win rates *)

Lemma winrate_mask_elem (copy_counts : list Z) (i : nat) :
  true ∈ (λ c, bool_decide (c = Z.of_nat i)) <$> copy_counts ↔
  Z.of_nat i ∈ copy_counts.
Proof.
  rewrite list_elem_of_fmap. split.
  - intros (c & Hc & Hin). symmetry in Hc.
    by apply bool_decide_eq_true in Hc as ->.
  - intros Hin. exists (Z.of_nat i). split; [|done].
    symmetry. by apply bool_decide_eq_true.
Qed.

Lemma sum_nonneg (l : list Z) : Forall (λ z, 0 ≤ z) l → 0 ≤ foldr Z.add 0 l.
Proof. induction 1; cbn; lia. Qed.

Lemma winrate_bounds (wins losses : Z) :
  0 ≤ wins → 0 ≤ losses → (0 <= winrate wins (wins + losses) <= 1)%Q.
Proof.
  intros Hw Hl. unfold winrate. case_decide as Htotal; [done|].
  assert (0 < inject_Z (wins + losses))%Q as Hpos.
  { change 0%Q with (inject_Z 0). rewrite <-Zlt_Qlt. lia. }
  split.
  - apply Qle_shift_div_l; [done|]. rewrite Qmult_0_l.
    change 0%Q with (inject_Z 0). rewrite <-Zle_Qle. lia.
  - apply Qle_shift_div_r; [done|]. rewrite Qmult_1_l.
    rewrite <-Zle_Qle. lia.
Qed.

(** Within the range nothing wraps. *)
Lemma wrap64_small (z : Z) : - 2 ^ 63 ≤ z < 2 ^ 63 → wrap64 z = z.
Proof. intros Hz. unfold wrap64. rewrite Z.mod_small; lia. Qed.

Lemma int64_sum_from (cells : list Z) (acc : Z) :
  Z.abs acc + foldr Z.add 0 (Z.abs <$> cells) < 2 ^ 63 →
  foldl (λ acc cell, wrap64 (acc + cell)) acc cells =
    acc + foldr Z.add 0 cells.
Proof.
  revert acc. induction cells as [|cell cells IH]; intros acc Hacc.
  - cbn. lia.
  - cbn in Hacc. cbn [foldl foldr].
    assert (0 ≤ foldr Z.add 0 (Z.abs <$> cells)) as Hrest.
    { apply sum_nonneg, Forall_fmap, Forall_forall. intros z _. cbn. lia. }
    rewrite wrap64_small by lia. rewrite IH by lia. lia.
Qed.

Lemma int64_sum_exact (cells : list Z) :
  foldr Z.add 0 (Z.abs <$> cells) < 2 ^ 63 →
  int64_sum cells = foldr Z.add 0 cells.
Proof.
  intros Hcells. unfold int64_sum. rewrite int64_sum_from; [lia|].
  change (Z.abs 0) with 0. lia.
Qed.

Lemma games_split (decks : list (Z * Z)) :
  games decks =
    foldr Z.add 0 (Z.abs <$> decks.*1) + foldr Z.add 0 (Z.abs <$> decks.*2).
Proof.
  unfold games. induction decks as [|d decks IH]; [done|].
  cbn in *. rewrite IH. lia.
Qed.

Lemma abs_sum_le (cells : list Z) :
  Z.abs (foldr Z.add 0 cells) ≤ foldr Z.add 0 (Z.abs <$> cells).
Proof. induction cells as [|cell cells IH]; cbn; lia. Qed.

Lemma games_nonneg (decks : list (Z * Z)) : 0 ≤ games decks.
Proof.
  apply sum_nonneg, Forall_fmap, Forall_forall. intros d _. cbn. lia.
Qed.

(** The rows a boolean mask selects weigh no more than the frame. *)
Lemma games_selected (decks : list (Z * Z)) (mask : list bool) :
  games (filter (λ p, p.2 = true) (zip decks mask)).*1 ≤ games decks.
Proof.
  revert mask. induction decks as [|d decks IH]; intros mask.
  - by destruct mask.
  - destruct mask as [|b mask]; [apply games_nonneg|].
    change (zip (d :: decks) (b :: mask)) with ((d, b) :: zip decks mask).
    rewrite filter_cons. specialize (IH mask).
    unfold games in *. case_decide; cbn in *; lia.
Qed.

(** The mask of the loop selects the decks with [i] copies. *)
Lemma selected_decks_with (copy_counts : list Z) (decks : list (Z * Z))
    (i : nat) :
  (filter (λ p, p.2 = true)
     (zip decks ((λ c, bool_decide (c = Z.of_nat i)) <$> copy_counts))).*1 =
  decks_with copy_counts decks i.
Proof.
  unfold decks_with. revert copy_counts.
  induction decks as [|d decks IH]; intros [|c copy_counts]; try done.
  cbn [fmap list_fmap zip zip_with]. rewrite !filter_cons. cbn [snd].
  specialize (IH copy_counts). cbn [fmap list_fmap zip] in IH.
  destruct (decide (c = Z.of_nat i)) as [Hc|Hc].
  - rewrite bool_decide_eq_true_2 by done.
    rewrite decide_True by done. cbn. by f_equal.
  - rewrite bool_decide_eq_false_2 by done.
    rewrite decide_False by done. done.
Qed.

(** One turn of the loop, when the frame is aligned with the column and no
    sum wraps. *)
Lemma winrate_point_exact (copy_counts : list Z) (decks : list (Z * Z))
    (i : nat) :
  length copy_counts = length decks → within_int64 decks →
  winrate_point copy_counts decks i =
    Ok (if decide (Z.of_nat i ∈ copy_counts)
        then [(i, group_winrate (decks_with copy_counts decks i))] else []).
Proof.
  intros Hlen Hdecks. unfold winrate_point.
  destruct (decide (true ∈ _)) as [Hin|Hnin].
  - apply winrate_mask_elem in Hin.
    rewrite (decide_True (P := Z.of_nat i ∈ copy_counts)) by done.
    rewrite decide_True by (by rewrite length_fmap).
    pose proof (games_selected decks
      ((λ c, bool_decide (c = Z.of_nat i)) <$> copy_counts)) as Hsel.
    rewrite selected_decks_with in *.
    set (group := decks_with copy_counts decks i) in *.
    rewrite games_split in Hsel. unfold within_int64 in Hdecks.
    pose proof (abs_sum_le group.*1). pose proof (abs_sum_le group.*2).
    assert (0 ≤ foldr Z.add 0 (Z.abs <$> group.*1)).
    { apply sum_nonneg, Forall_fmap, Forall_forall. intros z _. cbn. lia. }
    assert (0 ≤ foldr Z.add 0 (Z.abs <$> group.*2)).
    { apply sum_nonneg, Forall_fmap, Forall_forall. intros z _. cbn. lia. }
    rewrite !int64_sum_exact by lia. rewrite wrap64_small by lia. done.
  - rewrite winrate_mask_elem in Hnin.
    by rewrite (decide_False (P := Z.of_nat i ∈ copy_counts)) by done.
Qed.

Lemma concat_points {A} (P : nat → Prop) `{!∀ i, Decision (P i)}
    (h : nat → A) (l : list nat) :
  concat ((λ i, if decide (P i) then [h i] else []) <$> l) = h <$> filter P l.
Proof.
  induction l as [|i l IH]; [done|].
  cbn [fmap list_fmap concat]. rewrite filter_cons.
  cbn [fmap list_fmap] in IH. rewrite IH. by case_decide.
Qed.

Lemma win_rates_exact (copy_counts : list Z) (decks : list (Z * Z)) :
  length copy_counts = length decks → within_int64 decks →
  win_rates copy_counts decks =
    Ok ((λ i, (i, group_winrate (decks_with copy_counts decks i))) <$>
        filter (λ i, Z.of_nat i ∈ copy_counts) (seq 0 5)).
Proof.
  intros Hlen Hdecks. unfold win_rates.
  rewrite (mapM_result_ext _
    (λ i, Ok (if decide (Z.of_nat i ∈ copy_counts)
              then [(i, group_winrate (decks_with copy_counts decks i))]
              else [])))
    by (intros i; by apply winrate_point_exact).
  rewrite (mapM_result_Ok _ (seq 0 5)
    ((λ i, if decide (Z.of_nat i ∈ copy_counts)
           then [(i, group_winrate (decks_with copy_counts decks i))]
           else []) <$> seq 0 5)).
  - cbn [mbind result_bind mret result_ret].
    by rewrite (concat_points (λ i, Z.of_nat i ∈ copy_counts)).
  - apply Forall2_fmap_r, Forall_Forall2_diag, Forall_forall. by intros i _.
Qed.

Lemma win_rates_Ok (copy_counts : list Z) (decks : list (Z * Z))
    (points : list (nat * Q)) :
  win_rates copy_counts decks = Ok points ↔
  ∃ pts, Forall2 (λ i p, winrate_point copy_counts decks i = Ok p)
                 (seq 0 5) pts ∧ points = concat pts.
Proof.
  unfold win_rates. split.
  - destruct (mapM _ _) as [pts|] eqn:Hpts; cbn; [|done].
    intros [= <-]. exists pts. split; [|done]. by apply mapM_result_Ok_inv.
  - intros (pts & Hpts & ->). apply mapM_result_Ok in Hpts. by rewrite Hpts.
Qed.

Lemma decks_with_nonneg (copy_counts : list Z) (decks : list (Z * Z))
    (i : nat) :
  Forall (λ d, 0 ≤ d.1 ∧ 0 ≤ d.2) decks →
  Forall (λ d, 0 ≤ d.1 ∧ 0 ≤ d.2) (decks_with copy_counts decks i).
Proof.
  rewrite !Forall_forall. intros Hdecks d Hd. apply Hdecks.
  apply list_elem_of_fmap in Hd as ([d' c] & -> & Hd).
  apply list_elem_of_filter in Hd as [_ Hd].
  by apply elem_of_zip_l in Hd.
Qed.

Lemma group_winrate_bounds (group : list (Z * Z)) :
  Forall (λ d, 0 ≤ d.1 ∧ 0 ≤ d.2) group →
  (0 <= group_winrate group <= 1)%Q.
Proof.
  intros Hgroup.
  apply winrate_bounds; apply sum_nonneg, Forall_fmap;
    (eapply Forall_impl; [exact Hgroup|]); by intros d [? ?].
Qed.

(** X17. For a card of the vocabulary whose column is in the canonical
    matrix, and a frame with as many rows as the matrix whose sums stay
    within [int64], the win rate analysis returns a curve with one point for
    each copy count among 0 to 4 that some deck has, in increasing order,
    and the rate of the point of [i] copies is the win rate of exactly the
    decks with [i] copies: wins over wins plus losses, or 0 when they have
    no games. Decks with five copies or more are in no point and in no
    rate. *)
Theorem winrate_points (selected_card : string)
    (feature_names : gmap string nat) (X : sparse_matrix)
    (decks : list (Z * Z)) (mb_idx : nat) :
  selected_card ≠ EmptyString →
  feature_names !! selected_card = Some mb_idx →
  canonical (csc X) → (mb_idx < (shape (csc X)).2)%nat →
  length decks = (shape (csc X)).1 → within_int64 decks →
  ∃ copy_counts,
    dense_column X mb_idx = Ok copy_counts ∧
    get_winrate_analysis selected_card feature_names X decks =
      Ok (Curve ((λ i, (i, group_winrate (decks_with copy_counts decks i))) <$>
                 filter (λ i, Z.of_nat i ∈ copy_counts) (seq 0 5))).
Proof.
  intros Hcard Hidx HX Hj Hlen Hdecks.
  destruct (dense_column_canonical X mb_idx HX Hj) as [cells Hcells].
  exists cells. split; [done|].
  unfold get_winrate_analysis, dict_getitem.
  rewrite decide_False by done. rewrite decide_False by congruence.
  rewrite Hidx. cbn -[win_rates dense_column]. rewrite Hcells.
  cbn -[win_rates]. rewrite win_rates_exact; [done| |done].
  rewrite (length_dense_column X mb_idx cells Hcells). lia.
Qed.

Lemma winrate_points_witness :
  ∃ copy_counts,
    dense_column small_sparse 0 = Ok copy_counts ∧
    get_winrate_analysis "Opt" small_vocabulary small_sparse
      [(3, 1); (2, 2); (0, 4)] =
      Ok (Curve ((λ i, (i, group_winrate
                            (decks_with copy_counts [(3, 1); (2, 2); (0, 4)] i)))
                 <$> filter (λ i, Z.of_nat i ∈ copy_counts) (seq 0 5))).
Proof.
  apply (winrate_points "Opt" small_vocabulary small_sparse
           [(3, 1); (2, 2); (0, 4)] 0).
  - done.
  - reflexivity.
  - split; [reflexivity|].
    intros [|[|[|j]]] s e; cbn; intros Hs He; simplify_eq; cbn; lia.
  - cbn. lia.
  - reflexivity.
  - by apply (bool_decide_unpack _).
Defined.

(** X18. When no deck has a negative number of wins or losses and the
    games of all decks together stay below 2^63, so that no [int64] sum
    wraps around, every win rate of the curve the analysis returns lies
    between 0 and 1. *)
Theorem winrates_in_unit_interval (selected_card : string)
    (feature_names : gmap string nat) (X : sparse_matrix)
    (decks : list (Z * Z)) (points : list (nat * Q)) :
  Forall (λ d, 0 ≤ d.1 ∧ 0 ≤ d.2) decks → within_int64 decks →
  get_winrate_analysis selected_card feature_names X decks =
    Ok (Curve points) →
  Forall (λ p, 0 <= p.2 <= 1)%Q points.
Proof.
  intros Hnonneg Hdecks. unfold get_winrate_analysis.
  case_decide; [done|]. case_decide; [done|].
  destruct (dict_getitem _ _) as [mb_idx|];
    cbn -[dense_column win_rates]; [|done].
  destruct (dense_column X mb_idx) as [cells|]; cbn -[win_rates]; [|done].
  destruct (decide (length cells = length decks)) as [Hlen|Hlen].
  - rewrite win_rates_exact by done. cbn. intros [= <-].
    apply Forall_fmap, Forall_forall. intros i _. cbn.
    by apply group_winrate_bounds, decks_with_nonneg.
  - destruct (win_rates cells decks) as [pts|] eqn:Hpts; cbn; [|done].
    intros [= <-]. apply win_rates_Ok in Hpts as (ps & Hps & ->).
    apply Forall_concat. clear -Hps Hlen.
    induction Hps as [|i p idxs ps Hp _ IH]; constructor; [|done].
    unfold winrate_point in Hp. case_decide; [|by injection Hp as <-].
    rewrite decide_False in Hp by (by rewrite length_fmap). done.
Qed.

Lemma winrates_in_unit_interval_witness :
  Forall (λ p, 0 <= p.2 <= 1)%Q [(0%nat, 3 # 8); (4%nat, 2 # 4)].
Proof.
  apply (winrates_in_unit_interval "Opt" small_vocabulary small_sparse
           [(3, 1); (2, 2); (0, 4)]).
  - repeat (constructor; [cbn; lia|]). constructor.
  - by apply (bool_decide_unpack _).
  - reflexivity.
Defined.

End AnalyzerFacts.
